(** * The streaming websocket server of sherpa: dispatcher, registry, front end

  A shallow embedding of
  [sherpa/cpp_api/websocket/online-websocket-server-impl.cc]:
  the decoder's ready queue and active set ([Push], [Decode]), the
  connection registry ([OnOpen], [OnClose], [Contains], [Send]), the HTTP
  handler ([OnHttp]) and the websocket message handler ([OnMessage]).

  Every member function becomes a function on an explicit server state
  [World].  The recognizer, the static file server and the websocket
  endpoint are members of the server whose code is elsewhere; they are the
  classes [OnlineRecognizer], [HttpServer] and [Endpoint] below. *)

From Stdlib Require Import ZArith String Ascii List Lia Bool.
From Stdlib Require Import Floats.SpecFloat.
From stdpp Require Import gmap strings list fin_maps.

Local Open Scope Z_scope.

(** ** Outcomes of a handler

  A C++ member function returns, throws, or has undefined behaviour. *)

Inductive outcome (A : Type) : Type :=
  | Returns (a : A)
  | Throws
  | Undefined.
Arguments Returns {A} a.
Arguments Throws {A}.
Arguments Undefined {A}.

#[global] Instance outcome_ret : MRet outcome := fun A a => Returns a.
#[global] Instance outcome_bind : MBind outcome := fun A B k m =>
  match m with
  | Returns a => k a
  | Throws => Throws
  | Undefined => Undefined
  end.

(** ** Machine integers *)

Module Int.
Definition INT32_MIN : Z := - 2 ^ 31.
Definition INT32_MAX : Z := 2 ^ 31 - 1.
Definition INT64_MIN : Z := - 2 ^ 63.
Definition INT64_MAX : Z := 2 ^ 63 - 1.

(** Conversion of an unsigned value to [int32_t]: reduction modulo [2^32]
    into the signed range. *)
Definition to_int32 (z : Z) : Z :=
  let r := z mod 2 ^ 32 in
  if r <? 2 ^ 31 then r else r - 2 ^ 32.

(** [sizeof(float)] *)
Definition sizeof_float : Z := 4.
End Int.

(** ** Floating point values the handler computes with

  [samp_freq] is a [float]; [0.3 * sample_rate] is computed in [double]
  after the usual promotion, which is exact.  Values are [spec_float]s and
  the product is IEEE-754 binary64 multiplication [SFmul 53 1024]. *)

Module Fp.
Definition prec64 : Z := 53.
Definition emax64 : Z := 1024.
Definition prec32 : Z := 24.
Definition emax32 : Z := 128.

(** The [double] literal [0.3], i.e. [0x3FD3333333333333]. *)
Definition double_0_3 : spec_float :=
  S754_finite false 5404319552844595 (-54).

Definition dmul (x y : spec_float) : spec_float := SFmul prec64 emax64 x y.

(** Truncation toward zero of [m * 2^e]. *)
Definition trunc_mag (m : positive) (e : Z) : Z :=
  if 0 <=? e then Z.shiftl (Z.pos m) e else Z.shiftr (Z.pos m) (- e).

(** [static_cast<int64_t>(x)] for a [double] [x]: the value truncated
    toward zero; undefined when it is not representable. *)
Definition to_int64 (x : spec_float) : option Z :=
  match x with
  | S754_zero _ => Some 0
  | S754_finite s m e =>
      let v := if s then - trunc_mag m e else trunc_mag m e in
      if (Int.INT64_MIN <=? v) && (v <=? Int.INT64_MAX) then Some v else None
  | S754_infinity _ | S754_nan => None
  end.

(** The [float] whose value is the integer [n], for [0 < n < 2^24]: the
    mantissa is [n] shifted to 24 bits. *)
Definition float_of_pos (n : positive) : spec_float :=
  let d := Z.pos (digits2_pos n) in
  S754_finite false (Z.to_pos (Z.shiftl (Z.pos n) (prec32 - d))) (d - prec32).
End Fp.
Arguments Fp.dmul : simpl never.
Arguments Fp.to_int64 : simpl never.

(** ** Tensors and their storage

  A tensor of [float]s is a view of [numel] elements on a block of bytes.
  [torch::from_blob] views memory it does not own, [clone] and
  [torch::zeros] allocate a block of their own.  A [float] in memory is
  its four bytes, in the order the host stores them. *)

Abbreviation addr := positive (only parsing).
Definition float32 : Type := (ascii * ascii * ascii * ascii)%type.

Record Tensor := mkTensor { data_ptr : addr; numel : Z }.

Abbreviation memory := (gmap addr (list ascii)).

Fixpoint floats_of_bytes (bs : list ascii) : list float32 :=
  match bs with
  | b0 :: b1 :: b2 :: b3 :: rest => (b0, b1, b2, b3) :: floats_of_bytes rest
  | _ => []
  end.

Definition zero_float : float32 := (zero, zero, zero, zero).

(** The elements a tensor denotes in a memory; [None] when its block is gone
  or too short. *)
Definition tensor_elems (m : memory) (t : Tensor) : option (list float32) :=
  match m !! data_ptr t with
  | Some bs =>
    let fs := floats_of_bytes bs in
    if (0 <=? numel t) && (numel t <=? Z.of_nat (length fs))
    then Some (take (Z.to_nat (numel t)) fs) else None
  | None => None
  end.

Module torch.
(** [torch::from_blob(p, {n}, kFloat)]: a view of [n] floats at [p];
    a negative size is rejected with an exception. *)
Definition from_blob (p : addr) (n : Z) : outcome Tensor :=
  if n <? 0 then Throws else Returns (mkTensor p n).

(** [t.clone()]: a new block holding the bytes the view covers. *)
Definition clone (t : Tensor) (m : memory) : outcome (Tensor * memory) :=
  match m !! data_ptr t with
  | Some bs =>
      let a := fresh (dom m) in
      Returns (mkTensor a (numel t),
               <[a := take (Z.to_nat (Int.sizeof_float * numel t)) bs]> m)
  | None => Undefined
  end.

(** [torch::zeros({n}).to(torch::kFloat)]: a new block of [n] zero floats
    (the default dtype is already [float], [to] returns the tensor). *)
Definition zeros (n : Z) (m : memory) : outcome (Tensor * memory) :=
  if n <? 0 then Throws
  else
    let a := fresh (dom m) in
    Returns (mkTensor a n,
             <[a := replicate (Z.to_nat (Int.sizeof_float * n)) zero]> m).
End torch.

(** ** Handles, stream identities, frames, tasks *)

(** [connection_hdl]: the transport's opaque, ordered token of a session. *)
Abbreviation connection_hdl := nat (only parsing).

(** [OnlineStream *]: the identity of a stream is the address of its object
  ([s.get()]). *)
Abbreviation stream_ptr := positive (only parsing).

(** [websocketpp::frame::opcode] *)
Inductive opcode := op_continuation | op_text | op_binary | op_close | op_ping | op_pong.

(** [server::message_ptr]: the opcode, the payload as a [std::string], and
  the address [payload.data()] of its bytes. *)
Record message := mkMessage {
  get_opcode : opcode;
  get_payload : string;
  payload_data : addr
}.

(** What [asio::post] hands to an executor. *)
Inductive task :=
  | SendTask (hdl : connection_hdl) (text : string)
  | DecodeTask.

(** [websocketpp::http::status_code] *)
Inductive status_code := ok | not_found.

Definition status_value (c : status_code) : Z :=
  match c with ok => 200 | not_found => 404 end.

(** ** The collaborators

    The recognizer with its streams, the static file server and the
    websocket endpoint. *)

(** Modelled from the spec: [OnlineStream] ("per-connection decoding state
    owned by the recognizer"), whose class is defined elsewhere.  It
    accumulates the waveform chunks it accepted, remembers whether the
    input was finished, and carries what the recognizer keeps per stream. *)
Record OnlineStream (RecState : Type) := mkStream {
  waveform : list Tensor;
  input_finished : bool;
  rec_state : RecState
}.
Arguments mkStream {RecState} _ _ _.
Arguments waveform {RecState} _.
Arguments input_finished {RecState} _.
Arguments rec_state {RecState} _.

(** Modelled from the spec: [AcceptWaveform(sample_rate, samples)] keeps
    the tensor it is given (it "is referenced inside the fbank computer"),
    so the accumulated sample count grows by the tensor's [numel]. *)
Definition AcceptWaveform {RecState : Type} (sample_rate : spec_float)
  (samples : Tensor) (st : OnlineStream RecState) : OnlineStream RecState :=
  mkStream (waveform st ++ [samples]) (input_finished st) (rec_state st).

(** Modelled from the spec: [InputFinished()] marks the end of the audio. *)
Definition InputFinished {RecState : Type} (st : OnlineStream RecState) :
  OnlineStream RecState :=
  mkStream (waveform st) true (rec_state st).

(** The accumulated sample count of a stream. *)
Definition num_samples {RecState : Type} (st : OnlineStream RecState) : Z :=
  foldr (fun t acc => numel t + acc) 0 (waveform st).

(** [OnlineRecognizer] with its configuration: [CreateStream], [IsReady],
    [DecodeStream], [GetResult(s).AsJsonString()], the stream's
    [NumFramesReady] and [IsLastFrame], and
    [recognizer_config.feat_config.fbank_opts.frame_opts.samp_freq]. *)
Class OnlineRecognizer := {
  RecState : Type;
  initial_rec_state : RecState;
  IsReady : OnlineStream RecState -> bool;
  DecodeStream : OnlineStream RecState -> OnlineStream RecState;
  GetResultJson : OnlineStream RecState -> string;
  NumFramesReady : OnlineStream RecState -> Z;
  IsLastFrame : OnlineStream RecState -> Z -> bool;
  samp_freq : spec_float
}.

(** [HttpServer]: [http_server_.ProcessRequest(filename, &content)] on the
    empty [content] of [OnHttp]: whether the file was found, and the
    content. *)
Class HttpServer := {
  ProcessRequest : string -> bool * string
}.

(** The websocketpp endpoint: [server_.send(hdl, text, opcode::text, ec)]
    gives the transport's new state and [ec], [None] for success and the
    error's message otherwise. *)
Class Endpoint := {
  Transport : Type;
  server_send : connection_hdl -> string -> Transport -> Transport * option string
}.

Section Server.
Context {recognizer_ : OnlineRecognizer} {http_server_ : HttpServer}
  {server_ : Endpoint}.

(** *** The state of the server *)

Record World := mkWorld {
  (** [OnlineWebsocketServer::connections_] *)
  connections_ : gmap connection_hdl stream_ptr;
  (** [OnlineWebsocketDecoder::streams_], the ready queue, head first *)
  streams_ : list (connection_hdl * stream_ptr);
  (** [OnlineWebsocketDecoder::active_] *)
  active_ : gset stream_ptr;
  (** the local [pair] of every [Decode] call that is between its two
      critical sections *)
  in_flight : list (connection_hdl * stream_ptr);
  (** the [OnlineStream] objects, by address; an object nobody points to
      any more just stays where it is *)
  heap : gmap stream_ptr (OnlineStream RecState);
  (** the storage of tensors and payloads *)
  mem : memory;
  (** tasks posted to [io_conn_] and to [io_work_], oldest first *)
  io_conn_ : list task;
  io_work_ : list task;
  transport : Transport;
  (** what was written to [server_.get_alog()] *)
  alog : list string
}.

Definition set_connections (f : gmap connection_hdl stream_ptr -> gmap connection_hdl stream_ptr) (w : World) : World :=
  mkWorld (f (connections_ w)) (streams_ w) (active_ w) (in_flight w)
          (heap w) (mem w) (io_conn_ w) (io_work_ w) (transport w) (alog w).
Definition set_streams (f : list (connection_hdl * stream_ptr) -> list (connection_hdl * stream_ptr)) (w : World) : World :=
  mkWorld (connections_ w) (f (streams_ w)) (active_ w) (in_flight w)
          (heap w) (mem w) (io_conn_ w) (io_work_ w) (transport w) (alog w).
Definition set_active (f : gset stream_ptr -> gset stream_ptr) (w : World) : World :=
  mkWorld (connections_ w) (streams_ w) (f (active_ w)) (in_flight w)
          (heap w) (mem w) (io_conn_ w) (io_work_ w) (transport w) (alog w).
Definition set_in_flight (f : list (connection_hdl * stream_ptr) -> list (connection_hdl * stream_ptr)) (w : World) : World :=
  mkWorld (connections_ w) (streams_ w) (active_ w) (f (in_flight w))
          (heap w) (mem w) (io_conn_ w) (io_work_ w) (transport w) (alog w).
Definition set_heap (f : gmap stream_ptr (OnlineStream RecState) -> gmap stream_ptr (OnlineStream RecState)) (w : World) : World :=
  mkWorld (connections_ w) (streams_ w) (active_ w) (in_flight w)
          (f (heap w)) (mem w) (io_conn_ w) (io_work_ w) (transport w) (alog w).
Definition set_mem (f : memory -> memory) (w : World) : World :=
  mkWorld (connections_ w) (streams_ w) (active_ w) (in_flight w)
          (heap w) (f (mem w)) (io_conn_ w) (io_work_ w) (transport w) (alog w).
Definition set_transport (t : Transport) (w : World) : World :=
  mkWorld (connections_ w) (streams_ w) (active_ w) (in_flight w)
          (heap w) (mem w) (io_conn_ w) (io_work_ w) t (alog w).
Definition write_alog (m : string) (w : World) : World :=
  mkWorld (connections_ w) (streams_ w) (active_ w) (in_flight w)
          (heap w) (mem w) (io_conn_ w) (io_work_ w) (transport w) (alog w ++ [m]).

(** [asio::post(server_->GetConnectionContext(), ...)] and
    [asio::post(io_work_, ...)]: the task joins the executor's queue, it is
    not run inline. *)
Definition post_conn (t : task) (w : World) : World :=
  mkWorld (connections_ w) (streams_ w) (active_ w) (in_flight w)
          (heap w) (mem w) (io_conn_ w ++ [t]) (io_work_ w) (transport w) (alog w).
Definition post_work (t : task) (w : World) : World :=
  mkWorld (connections_ w) (streams_ w) (active_ w) (in_flight w)
          (heap w) (mem w) (io_conn_ w) (io_work_ w ++ [t]) (transport w) (alog w).

(** A freshly constructed server. *)
Definition initial_world (t : Transport) : World :=
  mkWorld ∅ [] ∅ [] ∅ ∅ [] [] t [].

(** Dereferencing a stream pointer. *)
Definition deref (w : World) (s : stream_ptr) : outcome (OnlineStream RecState) :=
  match heap w !! s with
  | Some st => Returns st
  | None => Undefined
  end.

(** *** The decoder: ready queue and active set *)

(** [OnlineWebsocketDecoder::Push], one critical section. *)
Definition Push (hdl : connection_hdl) (s : stream_ptr) (w : World) : World :=
  if decide (s ∈ active_ w) then w
  else set_active (fun a => a ∪ {[s]}) (set_streams (fun q => q ++ [(hdl, s)]) w).

(** Forgetting one held pair. *)
Fixpoint remove_one (p : connection_hdl * stream_ptr)
  (l : list (connection_hdl * stream_ptr)) : list (connection_hdl * stream_ptr) :=
  match l with
  | [] => []
  | q :: l' => if decide (p = q) then l' else q :: remove_one p l'
  end.

(** The first critical section of [Decode]: nothing to do on an empty
    queue, otherwise the head leaves the queue and is held by the caller. *)
Definition Decode_front (w : World) : World * option (connection_hdl * stream_ptr) :=
  match streams_ w with
  | [] => (w, None)
  | pr :: rest =>
      (set_in_flight (cons pr) (set_streams (fun _ => rest) w), Some pr)
  end.

(** [OnlineWebsocketServer::Contains] *)
Definition Contains (w : World) (hdl : connection_hdl) : bool :=
  bool_decide (is_Some (connections_ w !! hdl)).

(** The critical section of the branch that continues: the pair goes back
    to the tail of the queue; [active_] is not touched. *)
Definition requeue (pr : connection_hdl * stream_ptr) (w : World) : World :=
  set_in_flight (remove_one pr) (set_streams (fun q => q ++ [pr]) w).

(** The critical section of the branch that stops: the stream leaves
    [active_]. *)
Definition retire (pr : connection_hdl * stream_ptr) (w : World) : World :=
  set_in_flight (remove_one pr) (set_active (fun a => a ∖ {[pr.2]}) w).

(** [Decode] between its critical sections, for the pair it holds: the
    decoding step on the stream, and the hypothesis posted to the
    connection executor. *)
Definition Decode_stream (pr : connection_hdl * stream_ptr) (w : World) : outcome World :=
  let hdl := pr.1 in
  let s := pr.2 in
  st ← deref w s;
  let st' := DecodeStream st in
  Returns (post_conn (SendTask hdl (GetResultJson st')) (set_heap <[s := st']> w)).

(** The branch that continues: the pair is enqueued again and one more
    [Decode] is posted to the compute executor. *)
Definition Decode_continue (pr : connection_hdl * stream_ptr) (w : World) : World :=
  post_work DecodeTask (requeue pr w).

(** The branch that stops: the stream is retired, and "Done" is posted when
    the last frame ready is the last frame of the stream. *)
Definition Decode_stop (pr : connection_hdl * stream_ptr) (w : World) : outcome World :=
  let hdl := pr.1 in
  let s := pr.2 in
  let w' := retire pr w in
  st ← deref w' s;
  if IsLastFrame st (NumFramesReady st - 1) then
    Returns (post_conn (SendTask hdl "Done") w')
  else Returns w'.

(** [Decode] after its first critical section. *)
Definition Decode_rest (pr : connection_hdl * stream_ptr) (w : World) : outcome World :=
  let hdl := pr.1 in
  let s := pr.2 in
  w1 ← Decode_stream pr w;
  st ← deref w1 s;
  if Contains w1 hdl && IsReady st then Returns (Decode_continue pr w1)
  else Decode_stop pr w1.

(** [OnlineWebsocketDecoder::Decode] *)
Definition Decode (w : World) : outcome World :=
  match Decode_front w with
  | (w', None) => Returns w'
  | (w', Some pr) => Decode_rest pr w'
  end.

(** *** The registry *)

(** [OnlineWebsocketServer::Send] *)
Definition Send (hdl : connection_hdl) (text : string) (w : World) : World :=
  if negb (Contains w hdl) then w
  else
    let '(t, ec) := server_send hdl text (transport w) in
    let w1 := set_transport t w in
    match ec with
    | Some msg => write_alog msg w1
    | None => w1
    end.

(** [recognizer->CreateStream()]: a new object at an address that holds
    none. *)
Definition CreateStream (w : World) : stream_ptr * World :=
  let p := fresh (dom (heap w)) in
  (p, set_heap <[p := mkStream [] false initial_rec_state]> w).

(** [OnlineWebsocketServer::OnOpen]; [emplace] leaves an entry that is
    already there as it is.  The two [SHERPA_LOG(INFO)] lines go to the
    program's log, which is not part of the state. *)
Definition OnOpen (hdl : connection_hdl) (w : World) : World :=
  let '(p, w1) := CreateStream w in
  set_connections
    (fun c => match c !! hdl with Some _ => c | None => <[hdl := p]> c end) w1.

(** [OnlineWebsocketServer::OnClose], without its [SHERPA_LOG(INFO)] line. *)
Definition OnClose (hdl : connection_hdl) (w : World) : World :=
  set_connections (delete hdl) w.

(** *** HTTP *)

Definition nl : string := String "010"%char EmptyString.
Definition dq : string := String "034"%char EmptyString.

(** The raw string literal of [OnHttp], from the newline after [R"(] to
    the four blanks before [)"]. *)
Definition redirect_stub : string :=
  nl +:+
  "<!doctype html><html><head>" +:+ nl +:+
  "<title>Speech recognition with next-gen Kaldi</title><body>" +:+ nl +:+
  "<h2>Only /streaming_record.html is available for the online server.<h2>" +:+ nl +:+
  "<br/>" +:+ nl +:+
  "<br/>" +:+ nl +:+
  "Go back to <a href=" +:+ dq +:+ "/streaming_record.html" +:+ dq +:+
  ">/streaming_record.html</a>" +:+ nl +:+
  "</body></head></html>" +:+ nl +:+
  "    ".

(** [OnlineWebsocketServer::OnHttp] for the resource of the request:
    the status and the body it sets on the connection. *)
Definition OnHttp (resource : string) : status_code * string :=
  let filename := if String.eqb resource "/" then "/index.html" else resource in
  let '(found, content) :=
    if negb (String.eqb filename "/upload.html")
       && negb (String.eqb filename "/offline_record.html")
    then ProcessRequest filename
    else (false, redirect_stub) in
  (if found then ok else not_found, content).

(** *** Websocket messages *)

Definition of_option {A : Type} (o : option A) : outcome A :=
  match o with Some a => Returns a | None => Undefined end.

(** [OnlineWebsocketServer::OnMessage] *)
Definition OnMessage (hdl : connection_hdl) (msg : message) (w : World) : outcome World :=
  match connections_ w !! hdl with
  | None => Undefined (* [connections_.find(hdl)] is [end()], and is dereferenced *)
  | Some stream =>
      let payload := get_payload msg in
      let sample_rate := samp_freq in
      match get_opcode msg with
      | op_text =>
          if String.eqb payload "Done" then
            n ← of_option (Fp.to_int64 (Fp.dmul Fp.double_0_3 sample_rate));
            '(tail_padding, m1) ← torch.zeros n (mem w);
            let w1 := set_mem (fun _ => m1) w in
            st ← deref w1 stream;
            let st1 := AcceptWaveform sample_rate tail_padding st in
            let st2 := InputFinished st1 in
            let w2 := set_heap <[stream := st2]> w1 in
            if IsReady st2 then
              Returns (post_work DecodeTask (Push hdl stream w2))
            else Returns w2
          else Returns w
      | op_binary =>
          let p := payload_data msg in
          let num_samples :=
            Int.to_int32 (Z.of_nat (String.length payload) / Int.sizeof_float) in
          samples ← torch.from_blob p num_samples;
          '(samples, m1) ← torch.clone samples (mem w);
          let w1 := set_mem (fun _ => m1) w in
          st ← deref w1 stream;
          let st1 := AcceptWaveform sample_rate samples st in
          let w2 := set_heap <[stream := st1]> w1 in
          if IsReady st1 then
            Returns (post_work DecodeTask (Push hdl stream w2))
          else Returns w2
      | _ => Returns w
      end
  end.

(** Modelled from the spec: the transport's delivery of one frame.  The
    payload lives in a block of the transport's for the time of the call
    ("the original payload memory is freed when [OnMessage] returns"). *)
Definition deliver (hdl : connection_hdl) (op : opcode) (payload : string)
  (w : World) : outcome World :=
  let p := fresh (dom (mem w)) in
  let w0 := set_mem <[p := list_ascii_of_string payload]> w in
  w' ← OnMessage hdl (mkMessage op payload p) w0;
  Returns (set_mem (delete p) w').

(** *** Interleavings

    What can happen to a server, one atomic action at a time: the handlers
    of the connection executor, [Send] and [Decode] tasks, a [Push], and
    [Decode] split where other threads can run in between: its first
    critical section, and for a pair some worker holds, the decoding step
    and either of the two ways to finish.  Which way a worker finishes was
    decided before it takes the lock again, so either is possible in any
    state. *)

Inductive event :=
  | EvOpen (hdl : connection_hdl)
  | EvClose (hdl : connection_hdl)
  | EvMessage (hdl : connection_hdl) (op : opcode) (payload : string)
  | EvSend (hdl : connection_hdl) (text : string)
  | EvPush (hdl : connection_hdl) (s : stream_ptr)
  | EvDecode
  | EvDecodeFront
  | EvDecodeStream (pr : connection_hdl * stream_ptr)
  | EvDecodeContinue (pr : connection_hdl * stream_ptr)
  | EvDecodeStop (pr : connection_hdl * stream_ptr).

Inductive step : World -> event -> World -> Prop :=
  | step_open w hdl : step w (EvOpen hdl) (OnOpen hdl w)
  | step_close w hdl : step w (EvClose hdl) (OnClose hdl w)
  | step_message w hdl op payload w' :
    deliver hdl op payload w = Returns w' ->
    step w (EvMessage hdl op payload) w'
  | step_send w hdl text : step w (EvSend hdl text) (Send hdl text w)
  | step_push w hdl s : step w (EvPush hdl s) (Push hdl s w)
  | step_decode w w' : Decode w = Returns w' -> step w EvDecode w'
  | step_front w : step w EvDecodeFront (Decode_front w).1
  | step_stream w pr w' :
    pr ∈ in_flight w -> Decode_stream pr w = Returns w' ->
    step w (EvDecodeStream pr) w'
  | step_continue w pr :
    pr ∈ in_flight w -> step w (EvDecodeContinue pr) (Decode_continue pr w)
  | step_stop w pr w' :
    pr ∈ in_flight w -> Decode_stop pr w = Returns w' ->
    step w (EvDecodeStop pr) w'.

Inductive steps : World -> list event -> World -> Prop :=
  | steps_nil w : steps w [] w
  | steps_cons w ev w1 evs w2 :
    step w ev w1 -> steps w1 evs w2 -> steps w (ev :: evs) w2.

Definition reachable (w : World) : Prop :=
  exists t evs, steps (initial_world t) evs w.

(** *** The invariants of the dispatcher *)

(** The stream identities enqueued, and those a decode step is in flight
    for. *)
Definition queued (w : World) : list stream_ptr := (streams_ w).*2.
Definition decoding (w : World) : list stream_ptr := (in_flight w).*2.

(** A stream is active iff it is enqueued or in flight. *)
Definition active_iff (w : World) : Prop :=
  forall s, s ∈ active_ w <-> s ∈ queued w \/ s ∈ decoding w.

(** No stream is enqueued twice. *)
Definition queue_nodup (w : World) : Prop := NoDup (queued w).

(** What every action preserves: [active_iff], and no stream occurs twice
    among the enqueued and the in-flight ones together. *)
Definition dispatcher_inv (w : World) : Prop :=
  active_iff w /\ NoDup (queued w ++ decoding w).

End Server.

(** The number of entries of the ready queue for a stream identity. *)
Definition entries_for `{OnlineRecognizer, Endpoint} (s : stream_ptr) (w : World) : nat :=
  length (filter (fun pr => pr.2 = s) (streams_ w)).

(** Two states with the same dispatcher: queue, active set, held pairs. *)
Definition same_dispatcher `{OnlineRecognizer, Endpoint} (w w' : World) : Prop :=
  streams_ w = streams_ w' /\ active_ w = active_ w' /\ in_flight w = in_flight w'.

(** Whether a text occurs in another. *)
Definition mentions (needle text : string) : bool :=
  match String.index 0 needle text with Some _ => true | None => false end.

(** ** The executors

    [asio::post] queues a closure on an [io_context]; a thread that runs the
    context takes the oldest one and calls it.  The closures of this server
    call [server_->Send] or [Decode]. *)

Section Executors.
Context {recognizer_ : OnlineRecognizer} {server_ : Endpoint}.

Definition set_io_conn (q : list task) (w : World) : World :=
  mkWorld (connections_ w) (streams_ w) (active_ w) (in_flight w)
          (heap w) (mem w) q (io_work_ w) (transport w) (alog w).
Definition set_io_work (q : list task) (w : World) : World :=
  mkWorld (connections_ w) (streams_ w) (active_ w) (in_flight w)
          (heap w) (mem w) (io_conn_ w) q (transport w) (alog w).

Definition run_task (t : task) (w : World) : outcome World :=
  match t with
  | SendTask hdl text => Returns (Send hdl text w)
  | DecodeTask => Decode w
  end.

(** One turn of the connection executor, and one of the compute executor. *)
Definition run_conn (w : World) : outcome World :=
  match io_conn_ w with
  | [] => Returns w
  | t :: rest => run_task t (set_io_conn rest w)
  end.
Definition run_work (w : World) : outcome World :=
  match io_work_ w with
  | [] => Returns w
  | t :: rest => run_task t (set_io_work rest w)
  end.

(** What the running server does, one handler or task at a time. *)
Inductive action :=
  | ActOpen (hdl : connection_hdl)
  | ActClose (hdl : connection_hdl)
  | ActMessage (hdl : connection_hdl) (op : opcode) (payload : string)
  | ActConn
  | ActWork.

Definition perform (a : action) (w : World) : outcome World :=
  match a with
  | ActOpen hdl => Returns (OnOpen hdl w)
  | ActClose hdl => Returns (OnClose hdl w)
  | ActMessage hdl op payload => deliver hdl op payload w
  | ActConn => run_conn w
  | ActWork => run_work w
  end.

Fixpoint perform_all (acts : list action) (w : World) : outcome World :=
  match acts with
  | [] => Returns w
  | a :: rest => w' ← perform a w; perform_all rest w'
  end.

(** The states a server gets into. *)
Definition served (w : World) : Prop :=
  exists t acts, perform_all acts (initial_world t) = Returns w.

(** Whether a handle is open after a run, given whether it was before. *)
Fixpoint open_after (acts : list action) (hdl : connection_hdl) (was : bool) : bool :=
  match acts with
  | [] => was
  | ActOpen h :: rest => open_after rest hdl (if decide (h = hdl) then true else was)
  | ActClose h :: rest => open_after rest hdl (if decide (h = hdl) then false else was)
  | _ :: rest => open_after rest hdl was
  end.


(** Every pointer the registry or the queue holds refers to an object. *)
Definition pointers_live (w : World) : Prop :=
  (forall hdl s, connections_ w !! hdl = Some s -> is_Some (heap w !! s)) /\
  (forall pr, pr ∈ streams_ w -> is_Some (heap w !! pr.2)).

(** No two handles share a stream. *)
Definition registry_injective (w : World) : Prop :=
  forall h1 h2 s,
    connections_ w !! h1 = Some s -> connections_ w !! h2 = Some s -> h1 = h2.

(** Each executor holds only the tasks meant for it, and the compute
    executor holds a [Decode] for every queue entry. *)
Definition tasks_routed (w : World) : Prop :=
  Forall (fun t => t = DecodeTask) (io_work_ w) /\
  Forall (fun t => exists hdl text, t = SendTask hdl text) (io_conn_ w).
Definition decode_pending (w : World) : Prop :=
  (length (streams_ w) <= length (io_work_ w))%nat.

(** Every tensor a stream holds denotes elements of the memory. *)
Definition tensors_live (w : World) : Prop :=
  forall s st t,
    heap w !! s = Some st -> t ∈ waveform st ->
    is_Some (tensor_elems (mem w) t).

(** Binary frames delivered one after the other on a connection, and the
    samples their payloads hold. *)
Fixpoint deliver_binary_all (hdl : connection_hdl) (payloads : list string)
  (w : World) : outcome World :=
  match payloads with
  | [] => Returns w
  | p :: rest => w' ← deliver hdl op_binary p w; deliver_binary_all hdl rest w'
  end.

Fixpoint samples_of (payloads : list string) : Z :=
  match payloads with
  | [] => 0
  | p :: rest => Z.of_nat (String.length p) / 4 + samples_of rest
  end.

(** What the running server keeps: the dispatcher's invariants with no
    decode step left in flight between two handlers, live pointers, an
    injective registry, and tasks where they belong. *)
Definition core_inv (w : World) : Prop :=
  dispatcher_inv w /\ in_flight w = [] /\ pointers_live w /\
  registry_injective w /\ tasks_routed w.

Definition server_inv (w : World) : Prop := core_inv w /\ decode_pending w.

End Executors.

(** ** Configuration *)

(** [OnlineWebsocketServerConfig], without the decoder's part. *)
Record OnlineWebsocketServerConfig := mkConfig {
  doc_root : string;
  log_file : string
}.

(** A validation returns, or logs a [FATAL] message, which ends the
    program. *)
Inductive validation := Valid | Fatal (message : string).

(** [OnlineWebsocketServerConfig::Validate], given what
    [decoder_config.Validate()] does and the [FileExists] of
    [sherpa/csrc/file-utils.h]. *)
Definition Validate (decoder_config_Validate : validation)
  (FileExists : string -> bool) (config : OnlineWebsocketServerConfig) : validation :=
  match decoder_config_Validate with
  | Fatal m => Fatal m
  | Valid =>
      if String.eqb (doc_root config) "" then
        Fatal "Please provide --doc-root, e.g., sherpa/bin/web"
      else if negb (FileExists (doc_root config +:+ "/index.html")) then
        Fatal (nl +:+ "--doc-root=" +:+ doc_root config +:+ nl +:+
               doc_root config +:+ "/index.html does not exist!" +:+ nl +:+
               "Make sure that you use sherpa/bin/web/ as --doc-root")
      else Valid
  end.

(** ** A small instance to run the handlers on

    A recognizer that consumes one accepted chunk per decoding step, a file
    server with one file, and an endpoint that records the frames it sends
    and refuses those for handle [0]. *)

Module Demo.

Definition recognizer : OnlineRecognizer := {|
  RecState := nat;
  initial_rec_state := 0%nat;
  IsReady := fun st => (rec_state st <? length (waveform st))%nat;
  DecodeStream := fun st =>
    mkStream (waveform st) (input_finished st) (S (rec_state st));
  GetResultJson := fun st => "{}";
  NumFramesReady := fun st => Z.of_nat (rec_state st);
  IsLastFrame := fun st i =>
    input_finished st && (i =? Z.of_nat (length (waveform st)) - 1);
  samp_freq := Fp.float_of_pos 16000
|}.

Definition http_server : HttpServer := {|
  ProcessRequest := fun f =>
    if String.eqb f "/index.html" then (true, "<html>index</html>") else (false, "")
|}.

Definition endpoint : Endpoint := {|
  Transport := list (connection_hdl * string);
  server_send := fun hdl text t =>
    match hdl with
    | O => (t, Some "invalid state")
    | _ => (t ++ [(hdl, text)], None)
    end
|}.

Definition world := @World recognizer endpoint.

(** A new server, and the same after a connection [1] was opened. *)
Definition w0 : world := @initial_world recognizer endpoint [].
Definition w1 : world := OnOpen 1%nat w0.

(** The stream of connection [1]. *)
Definition s1 : stream_ptr := 1%positive.

(** Eight bytes of payload, and five. *)
Definition bytes8 : string := "abcdefgh".
Definition bytes5 : string := "abcde".

Definition run (o : outcome world) (otherwise : world) : world :=
  match o with Returns w => w | _ => otherwise end.

(** After a binary frame of eight bytes on connection [1]: its stream is
    ready and enqueued. *)
Definition w2 : world := run (deliver 1%nat op_binary bytes8 w1) w1.

(** After the first critical section of a [Decode]: the pair is held. *)
Definition w3 : world := (Decode_front w2).1.

(** After a second binary frame, with no decoding step in between. *)
Definition w4 : world := run (deliver 1%nat op_binary bytes8 w2) w2.

(** The stream of connection [1] in [w4]: two chunks, none decoded. *)
Definition st4 : OnlineStream nat :=
  mkStream [mkTensor 2%positive 2; mkTensor 4%positive 2] false 0%nat.

(** After connection [1] was closed while its stream is enqueued. *)
Definition w5 : world := OnClose 1%nat w4.


(** The running server after a connection was opened, sent audio, and
    closed before its stream was decoded, and one turn of the compute
    executor. *)
Definition acts7 : list action :=
  [ActOpen 1%nat; ActMessage 1%nat op_binary bytes8; ActClose 1%nat; ActWork].
Definition w7 : world := run (perform_all acts7 w0) w0.

(** Two connections, each with audio waiting. *)
Definition acts8 : list action :=
  [ActOpen 1%nat; ActOpen 2%nat; ActMessage 1%nat op_binary bytes8;
   ActMessage 2%nat op_binary bytes5].
Definition w8 : world := run (perform_all acts8 w0) w0.
Definition s2 : stream_ptr := 2%positive.

End Demo.

(** * The dispatcher *)

Section DispatcherTheory.
Context {recognizer_ : OnlineRecognizer} {server_ : Endpoint}.
Implicit Types (w : World) (s : stream_ptr) (hdl : connection_hdl)
  (pr : connection_hdl * stream_ptr).

Lemma inv_same_dispatcher w w' :
  same_dispatcher w w' -> dispatcher_inv w -> dispatcher_inv w'.
Proof.
  intros (Hq & Ha & Hf) [Hiff Hnd].
  unfold dispatcher_inv, active_iff, queued, decoding in *.
  rewrite <- Hq, <- Ha, <- Hf. done.
Qed.

Lemma inv_queue_nodup w : dispatcher_inv w -> queue_nodup w.
Proof. intros [_ Hnd]. apply NoDup_app in Hnd. apply Hnd. Qed.

Lemma inv_initial t : dispatcher_inv (initial_world t).
Proof.
  split.
  - intros s. cbn. split.
    + by intros ?%elem_of_empty.
    + by intros [?%elem_of_nil|?%elem_of_nil].
  - cbn. constructor.
Qed.

(** *** [Push] *)

Lemma Push_active w hdl s : s ∈ active_ w -> Push hdl s w = w.
Proof. intros Hin. unfold Push. by rewrite decide_True. Qed.

Lemma Push_fresh w hdl s :
  s ∉ active_ w ->
  Push hdl s w =
  set_active (fun a => a ∪ {[s]}) (set_streams (fun q => q ++ [(hdl, s)]) w).
Proof. intros Hin. unfold Push. by rewrite decide_False. Qed.

Lemma Push_in_active w hdl s : s ∈ active_ (Push hdl s w).
Proof.
  unfold Push. case_decide; [done|]. cbn. set_solver.
Qed.

Lemma Push_Push w hdl s : Push hdl s (Push hdl s w) = Push hdl s w.
Proof. apply Push_active, Push_in_active. Qed.

Lemma Push_iter w hdl s k :
  (1 <= k)%nat -> Nat.iter k (Push hdl s) w = Push hdl s w.
Proof.
  destruct k as [|k]; [lia|]. intros _.
  induction k as [|k IH]; [done|].
  change (Push hdl s (Nat.iter (S k) (Push hdl s) w) = Push hdl s w).
  rewrite IH. apply Push_Push.
Qed.

Lemma Push_inv w hdl s : dispatcher_inv w -> dispatcher_inv (Push hdl s w).
Proof.
  intros [Hiff Hnd]. unfold Push. case_decide as Hin; [done|].
  assert (~ s ∈ queued w ∧ ~ s ∈ decoding w) as [Hq Hd].
  { split; intros ?; apply Hin, Hiff; auto. }
  unfold dispatcher_inv, active_iff, queued, decoding in *. cbn.
  rewrite fmap_app. cbn. split.
  - intros x. rewrite elem_of_union, elem_of_singleton, elem_of_app, list_elem_of_singleton.
    rewrite Hiff. tauto.
  - rewrite <- app_assoc. cbn.
    apply NoDup_app in Hnd as (Hn1 & Hdisj & Hn2).
    apply NoDup_app. split_and!; [done| |].
    + intros x Hx. rewrite elem_of_cons. intros [->|Hx']; [done|].
      by apply (Hdisj x).
    + by apply NoDup_cons.
Qed.

Lemma filter_snd_absent (l : list (connection_hdl * stream_ptr)) s :
  s ∉ l.*2 -> filter (fun pr => pr.2 = s) l = [].
Proof.
  induction l as [|[h x] l IH]; [done|]. cbn. intros Hin.
  apply not_elem_of_cons in Hin as [Hne Hin].
  rewrite decide_False by done. auto.
Qed.

Lemma filter_snd_length (l : list (connection_hdl * stream_ptr)) s :
  NoDup l.*2 -> s ∈ l.*2 -> length (filter (fun pr => pr.2 = s) l) = 1%nat.
Proof.
  induction l as [|[h x] l IH]; cbn; intros Hnd Hin.
  - by apply elem_of_nil in Hin.
  - apply NoDup_cons in Hnd as [Hx Hnd].
    case_decide as Heq.
    + subst x. cbn. by rewrite filter_snd_absent.
    + apply elem_of_cons in Hin as [->|Hin]; [done|]. auto.
Qed.

(** C2: [Push] is idempotent.  On an active stream it changes nothing;
    otherwise it appends the pair to the tail of the queue and inserts the
    stream into the active set, and nothing else changes.  Hence any number
    [k >= 1] of pushes of the same pair, with no decode step of the stream
    in between or under way, leaves exactly one queue entry for it. *)
Theorem Push_idempotent w hdl s :
  (s ∈ active_ w -> Push hdl s w = w) ∧
  (s ∉ active_ w ->
   Push hdl s w =
   mkWorld (connections_ w) (streams_ w ++ [(hdl, s)]) (active_ w ∪ {[s]})
           (in_flight w) (heap w) (mem w) (io_conn_ w) (io_work_ w)
           (transport w) (alog w)) ∧
  (forall k : nat, (1 <= k)%nat -> dispatcher_inv w -> s ∉ decoding w ->
   entries_for s (Nat.iter k (Push hdl s) w) = 1%nat).
Proof.
  split_and!.
  - apply Push_active.
  - intros Hin. by rewrite Push_fresh.
  - intros k Hk Hinv Hdec. rewrite Push_iter by done.
    pose proof (Push_inv w hdl s Hinv) as Hinv'.
    pose proof (inv_queue_nodup _ Hinv') as Hnd.
    unfold entries_for. apply filter_snd_length; [done|].
    destruct Hinv' as [Hiff _].
    destruct (Hiff s) as [Hact _].
    destruct (Hact (Push_in_active w hdl s)) as [Hq|Hd]; [done|].
    exfalso. apply Hdec. revert Hd. unfold Push.
    case_decide; [done|]. done.
Qed.

(** While a decode step of the stream is under way, a push adds nothing. *)
Lemma Push_while_decoding w hdl s k :
  dispatcher_inv w -> s ∈ decoding w ->
  Nat.iter k (Push hdl s) w = w ∧ entries_for s w = 0%nat.
Proof.
  intros [Hiff Hnd] Hd. split.
  - induction k as [|k IH]; [done|].
    change (Push hdl s (Nat.iter k (Push hdl s) w) = w). rewrite IH.
    apply Push_active, Hiff. by right.
  - unfold entries_for. rewrite filter_snd_absent; [done|].
    apply NoDup_app in Hnd as (_ & Hdisj & _).
    intros Hq. by apply (Hdisj s).
Qed.

(** *** [Decode], one critical section at a time *)

Lemma remove_one_perm pr (l : list (connection_hdl * stream_ptr)) :
  pr ∈ l -> l ≡ₚ pr :: remove_one pr l.
Proof.
  induction l as [|q l IH]; cbn.
  - by intros ?%elem_of_nil.
  - intros Hin. case_decide as Heq; [by subst|].
    apply elem_of_cons in Hin as [->|Hin]; [done|].
    rewrite (IH Hin) at 1. apply Permutation_swap.
Qed.

(** The invariants only look at the active set and at the identities
    enqueued or in flight, in any order. *)
Lemma inv_perm w w' :
  active_ w' = active_ w ->
  queued w' ++ decoding w' ≡ₚ queued w ++ decoding w ->
  dispatcher_inv w -> dispatcher_inv w'.
Proof.
  intros Ha Hp [Hiff Hnd]. unfold active_iff in Hiff. split.
  - intros x. rewrite Ha, Hiff, <- !elem_of_app. by rewrite Hp.
  - by rewrite Hp.
Qed.

Lemma Decode_front_inv w : dispatcher_inv w -> dispatcher_inv (Decode_front w).1.
Proof.
  unfold Decode_front. destruct (streams_ w) as [|pr rest] eqn:Hq; [done|].
  cbn. apply inv_perm; [done|].
  unfold queued, decoding. cbn. rewrite Hq. cbn.
  by rewrite Permutation_middle.
Qed.

Lemma requeue_inv w pr :
  pr ∈ in_flight w -> dispatcher_inv w -> dispatcher_inv (requeue pr w).
Proof.
  intros Hin. apply inv_perm; [done|].
  unfold queued, decoding. cbn.
  rewrite (remove_one_perm pr (in_flight w) Hin) at 2.
  rewrite fmap_app, <- app_assoc. cbn. done.
Qed.

Lemma retire_inv w pr :
  pr ∈ in_flight w -> dispatcher_inv w -> dispatcher_inv (retire pr w).
Proof.
  intros Hin [Hiff Hnd]. unfold active_iff in Hiff.
  assert (queued w ++ decoding w ≡ₚ
          pr.2 :: queued (retire pr w) ++ decoding (retire pr w)) as Hp.
  { unfold queued, decoding. cbn.
    rewrite (remove_one_perm pr (in_flight w) Hin) at 1.
    cbn. by rewrite Permutation_middle. }
  rewrite Hp in Hnd. apply NoDup_cons in Hnd as [Hnot Hnd].
  split; [|done].
  intros x. rewrite <- elem_of_app.
  change (active_ (retire pr w)) with (active_ w ∖ {[pr.2]}).
  rewrite elem_of_difference, elem_of_singleton, Hiff, <- elem_of_app, Hp.
  rewrite elem_of_cons. split.
  - intros [[->|Hx] Hne]; done.
  - intros Hx. split; [by right|]. by intros ->.
Qed.

Lemma Decode_stream_dispatcher pr w w' :
  Decode_stream pr w = Returns w' -> same_dispatcher w w'.
Proof.
  unfold Decode_stream, deref. destruct (heap w !! pr.2) as [st|]; [|done].
  by intros [= <-].
Qed.

Lemma Decode_stop_dispatcher pr w w' :
  Decode_stop pr w = Returns w' -> same_dispatcher (retire pr w) w'.
Proof.
  unfold Decode_stop, deref. cbn. destruct (heap w !! pr.2) as [st|]; [|done].
  cbn. destruct (IsLastFrame _ _); by intros [= <-].
Qed.

Lemma same_dispatcher_requeue pr w w' :
  same_dispatcher w w' -> same_dispatcher (requeue pr w) (requeue pr w').
Proof. intros (Hq & Ha & Hf). unfold same_dispatcher. cbn. by rewrite Hq, Ha, Hf. Qed.

Lemma same_dispatcher_retire pr w w' :
  same_dispatcher w w' -> same_dispatcher (retire pr w) (retire pr w').
Proof. intros (Hq & Ha & Hf). unfold same_dispatcher. cbn. by rewrite Hq, Ha, Hf. Qed.

Lemma same_dispatcher_trans w1 w2 w3 :
  same_dispatcher w1 w2 -> same_dispatcher w2 w3 -> same_dispatcher w1 w3.
Proof.
  intros (Hq & Ha & Hf) (Hq' & Ha' & Hf'). unfold same_dispatcher.
  by rewrite Hq, Ha, Hf.
Qed.

Lemma Decode_rest_dispatcher pr w w' :
  Decode_rest pr w = Returns w' ->
  same_dispatcher (requeue pr w) w' ∨ same_dispatcher (retire pr w) w'.
Proof.
  unfold Decode_rest.
  destruct (Decode_stream pr w) as [w1| |] eqn:Hstream; cbn; [|done..].
  pose proof (Decode_stream_dispatcher _ _ _ Hstream) as Hsame.
  destruct (deref w1 pr.2) as [st| |]; cbn; [|done..].
  destruct (Contains _ _ && IsReady _).
  - intros [= <-]. left.
    apply (same_dispatcher_trans _ (requeue pr w1));
      [by apply same_dispatcher_requeue | done].
  - intros Hstop%Decode_stop_dispatcher. right.
    apply (same_dispatcher_trans _ (retire pr w1));
      [by apply same_dispatcher_retire | done].
Qed.

Lemma Decode_inv w w' :
  dispatcher_inv w -> Decode w = Returns w' -> dispatcher_inv w'.
Proof.
  intros Hinv. unfold Decode.
  pose proof (Decode_front_inv w Hinv) as Hfront. revert Hfront.
  unfold Decode_front. destruct (streams_ w) as [|pr rest] eqn:Hq; cbn.
  - by intros _ [= <-].
  - intros Hfront Hrest.
    assert (pr ∈ in_flight
              (set_in_flight (cons pr) (set_streams (fun _ => rest) w))) as Hin.
    { cbn. apply elem_of_cons. by left. }
    destruct (Decode_rest_dispatcher _ _ _ Hrest) as [Hs|Hs];
      apply (inv_same_dispatcher _ _ Hs).
    + by apply requeue_inv.
    + by apply retire_inv.
Qed.

(** *** The other actions *)

Lemma OnMessage_dispatcher hdl msg w w' :
  OnMessage hdl msg w = Returns w' ->
  same_dispatcher w w' ∨
  exists s, connections_ w !! hdl = Some s ∧ same_dispatcher (Push hdl s w) w'.
Proof.
  unfold OnMessage. destruct (connections_ w !! hdl) as [s|]; [|done].
  destruct (get_opcode msg); try (intros [= <-]; by left).
  - destruct (String.eqb _ _); [|intros [= <-]; by left].
    destruct (of_option _) as [n| |]; cbn; [|done..].
    destruct (torch.zeros _ _) as [[t m1]| |]; cbn; [|done..].
    unfold deref. cbn. destruct (heap w !! s) as [st|]; cbn; [|done].
    destruct (IsReady _); intros [= <-].
    + right. exists s. split; [done|]. unfold Push. cbn.
      case_decide; done.
    + by left.
  - destruct (torch.from_blob _ _) as [t0| |]; cbn; [|done..].
    destruct (torch.clone _ _) as [[t m1]| |]; cbn; [|done..].
    unfold deref. cbn. destruct (heap w !! s) as [st|]; cbn; [|done].
    destruct (IsReady _); intros [= <-].
    + right. exists s. split; [done|]. unfold Push. cbn.
      case_decide; done.
    + by left.
Qed.

Lemma deliver_inv hdl op payload w w' :
  dispatcher_inv w -> deliver hdl op payload w = Returns w' -> dispatcher_inv w'.
Proof.
  intros Hinv. unfold deliver.
  destruct (OnMessage _ _ _) as [w1| |] eqn:Hm; cbn; [|done..].
  intros [= <-].
  apply (inv_same_dispatcher w1); [done|].
  destruct (OnMessage_dispatcher _ _ _ _ Hm) as [Hs|(s & _ & Hs)].
  - apply (inv_same_dispatcher _ _ Hs). apply (inv_same_dispatcher w); done.
  - apply (inv_same_dispatcher _ _ Hs).
    apply (inv_same_dispatcher (Push hdl s w)); [|by apply Push_inv].
    unfold Push. cbn. case_decide; done.
Qed.

Lemma Send_dispatcher hdl text w : same_dispatcher w (Send hdl text w).
Proof.
  unfold Send. destruct (negb _); [done|].
  destruct (server_send _ _ _) as [t [msg|]]; done.
Qed.

Lemma step_inv w ev w' : dispatcher_inv w -> step w ev w' -> dispatcher_inv w'.
Proof.
  intros Hinv Hstep. destruct Hstep.
  - by apply (inv_same_dispatcher w).
  - by apply (inv_same_dispatcher w).
  - by eapply deliver_inv.
  - by apply (inv_same_dispatcher _ _ (Send_dispatcher hdl text w)).
  - by apply Push_inv.
  - by eapply Decode_inv.
  - by apply Decode_front_inv.
  - apply (inv_same_dispatcher w); [|done].
    by apply Decode_stream_dispatcher with pr.
  - apply (inv_same_dispatcher (requeue pr w)); [done|].
    by apply requeue_inv.
  - apply (inv_same_dispatcher (retire pr w)); [|by apply retire_inv].
    by apply Decode_stop_dispatcher.
Qed.

Lemma steps_inv w evs w' : dispatcher_inv w -> steps w evs w' -> dispatcher_inv w'.
Proof.
  intros Hinv Hsteps. induction Hsteps as [|w ev w1 evs w2 Hstep _ IH]; [done|].
  apply IH. by eapply step_inv.
Qed.

(** C1: at every instant of every interleaving, a stream identity is in the
    active set iff it is enqueued or a decode step for it is in flight, and
    the ready queue holds no identity twice; [Push] and [Decode], the branch
    that re-appends included, preserve the invariants. *)
Theorem dispatcher_invariants :
  (forall w, reachable w -> active_iff w ∧ queue_nodup w) ∧
  (forall w hdl s, dispatcher_inv w -> dispatcher_inv (Push hdl s w)) ∧
  (forall w w', dispatcher_inv w -> Decode w = Returns w' -> dispatcher_inv w') ∧
  (forall w pr, dispatcher_inv w -> pr ∈ in_flight w ->
     dispatcher_inv (Decode_continue pr w)) ∧
  (forall w, dispatcher_inv w -> active_iff w ∧ queue_nodup w).
Proof.
  split_and!.
  - intros w (t & evs & Hsteps).
    pose proof (steps_inv _ _ _ (inv_initial t) Hsteps) as Hinv.
    split; [apply Hinv | by apply inv_queue_nodup].
  - intros w hdl s. apply Push_inv.
  - apply Decode_inv.
  - intros w pr Hinv Hin.
    apply (inv_same_dispatcher (requeue pr w)); [done|]. by apply requeue_inv.
  - intros w Hinv. split; [apply Hinv | by apply inv_queue_nodup].
Qed.

(** C3: [Decode] on an empty queue changes nothing.  Otherwise it takes the
    head pair off the queue, runs [DecodeStream] on its stream, posts the
    [Send] of the hypothesis to the connection executor, and then either
    re-appends the pair, the stream staying active, and posts one more
    [Decode] to the compute executor (when the handle is registered and the
    stream is ready), or removes the stream from the active set and posts
    the [Send] of "Done" exactly when the last frame ready is the last
    frame. *)
Theorem Decode_spec w :
  (streams_ w = [] -> Decode w = Returns w) ∧
  (forall hdl s rest st,
     streams_ w = (hdl, s) :: rest -> heap w !! s = Some st ->
     let st' := DecodeStream st in
     let hyp := SendTask hdl (GetResultJson st') in
     Decode w = Returns
       (if Contains w hdl && IsReady st' then
          mkWorld (connections_ w) (rest ++ [(hdl, s)]) (active_ w)
                  (in_flight w) (<[s := st']> (heap w)) (mem w)
                  (io_conn_ w ++ [hyp]) (io_work_ w ++ [DecodeTask])
                  (transport w) (alog w)
        else
          mkWorld (connections_ w) rest (active_ w ∖ {[s]})
                  (in_flight w) (<[s := st']> (heap w)) (mem w)
                  ((io_conn_ w ++ [hyp]) ++
                   (if IsLastFrame st' (NumFramesReady st' - 1)
                    then [SendTask hdl "Done"] else []))
                  (io_work_ w) (transport w) (alog w))).
Proof.
  split.
  - intros Hq. unfold Decode, Decode_front. by rewrite Hq.
  - intros hdl s rest st Hq Hst st' hyp.
    unfold Decode, Decode_front. rewrite Hq.
    unfold Decode_rest, Decode_stream, deref. cbn. rewrite Hst. cbn.
    rewrite lookup_insert_eq. cbn. fold st'. fold hyp.
    change (Contains _ hdl) with (Contains w hdl).
    destruct (Contains w hdl && IsReady st').
    + unfold Decode_continue, requeue, post_work. cbn. by rewrite decide_True.
    + unfold Decode_stop, deref, retire, post_conn, set_in_flight, set_active.
      cbn. rewrite lookup_insert_eq. cbn. fold st'.
      destruct (IsLastFrame _ _); cbn;
        rewrite decide_True by done; by rewrite ?app_nil_r.
Qed.

End DispatcherTheory.

Lemma Demo_w1_inv : dispatcher_inv Demo.w1.
Proof. apply (inv_same_dispatcher Demo.w0); [done | apply inv_initial]. Qed.

Lemma Demo_w2_inv : dispatcher_inv Demo.w2.
Proof.
  apply (deliver_inv 1%nat op_binary Demo.bytes8 Demo.w1); [apply Demo_w1_inv|].
  by vm_compute.
Qed.

Lemma dispatcher_invariants_witness :
  (active_iff Demo.w2 ∧ queue_nodup Demo.w2) ∧
  dispatcher_inv (Push 1%nat Demo.s1 Demo.w2) ∧
  dispatcher_inv (Demo.run (Decode Demo.w2) Demo.w2) ∧
  dispatcher_inv (Decode_continue (1%nat, Demo.s1) Demo.w3).
Proof.
  destruct (@dispatcher_invariants Demo.recognizer Demo.endpoint)
    as (Hreach & Hpush & Hdecode & Hrequeue & _).
  refine (conj _ (conj _ (conj _ _))).
  - apply Hreach. exists [], [EvOpen 1%nat; EvMessage 1%nat op_binary Demo.bytes8].
    eapply steps_cons; [apply step_open|].
    eapply steps_cons; [apply step_message; by vm_compute|].
    apply steps_nil.
  - apply Hpush, Demo_w2_inv.
  - apply (Hdecode Demo.w2); [apply Demo_w2_inv | by vm_compute].
  - apply Hrequeue.
    + apply Decode_front_inv, Demo_w2_inv.
    + vm_compute. apply elem_of_cons. by left.
Defined.

Lemma Push_idempotent_witness :
  Push 1%nat Demo.s1 Demo.w2 = Demo.w2 ∧
  streams_ (Push 1%nat Demo.s1 Demo.w1) = [(1%nat, Demo.s1)] ∧
  entries_for Demo.s1 (Nat.iter 3 (Push 1%nat Demo.s1) Demo.w1) = 1%nat.
Proof.
  destruct (Push_idempotent Demo.w2 1%nat Demo.s1) as (Hact & _ & _).
  destruct (Push_idempotent Demo.w1 1%nat Demo.s1) as (_ & Hnew & Hk).
  split_and!.
  - apply Hact. vm_compute. set_solver.
  - rewrite Hnew; [done|]. vm_compute. set_solver.
  - apply Hk; [lia | apply Demo_w1_inv |]. vm_compute. apply not_elem_of_nil.
Defined.

Lemma Decode_spec_witness :
  Decode Demo.w0 = Returns Demo.w0 ∧
  Decode Demo.w4 = Returns
    (mkWorld (connections_ Demo.w4) [(1%nat, Demo.s1)] (active_ Demo.w4) []
       (<[Demo.s1 := mkStream [mkTensor 2%positive 2; mkTensor 4%positive 2] false 1%nat]> (heap Demo.w4))
       (mem Demo.w4) [SendTask 1%nat "{}"] (io_work_ Demo.w4 ++ [DecodeTask])
       (transport Demo.w4) (alog Demo.w4)) ∧
  Decode Demo.w5 = Returns
    (mkWorld (connections_ Demo.w5) [] (active_ Demo.w5 ∖ {[Demo.s1]}) []
       (<[Demo.s1 := mkStream [mkTensor 2%positive 2; mkTensor 4%positive 2] false 1%nat]> (heap Demo.w5))
       (mem Demo.w5) [SendTask 1%nat "{}"] (io_work_ Demo.w5)
       (transport Demo.w5) (alog Demo.w5)).
Proof.
  refine (conj _ (conj _ _)).
  - by apply (proj1 (Decode_spec Demo.w0)).
  - by rewrite (proj2 (Decode_spec Demo.w4) 1%nat Demo.s1 [] Demo.st4).
  - by rewrite (proj2 (Decode_spec Demo.w5) 1%nat Demo.s1 [] Demo.st4).
Defined.

(** * The registry *)

Section RegistryTheory.
Context {recognizer_ : OnlineRecognizer} {server_ : Endpoint}.
Implicit Types (w : World) (s : stream_ptr) (hdl : connection_hdl).

Lemma Contains_false w hdl : Contains w hdl = false <-> connections_ w !! hdl = None.
Proof.
  unfold Contains. rewrite bool_decide_eq_false, <- eq_None_not_Some. done.
Qed.

Lemma Contains_OnClose w hdl : Contains (OnClose hdl w) hdl = false.
Proof. apply Contains_false. cbn. apply lookup_delete_eq. Qed.


Lemma OnMessage_connections hdl msg w w' :
  OnMessage hdl msg w = Returns w' -> connections_ w' = connections_ w.
Proof.
  unfold OnMessage. destruct (connections_ w !! hdl) as [s|]; [|done].
  destruct (get_opcode msg); try (by intros [= <-]).
  - destruct (String.eqb _ _); [|by intros [= <-]].
    destruct (of_option _) as [n| |]; cbn; [|done..].
    destruct (torch.zeros _ _) as [[t m1]| |]; cbn; [|done..].
    unfold deref. cbn. destruct (heap w !! s) as [st|]; cbn; [|done].
    destruct (IsReady _); intros [= <-]; [|done].
    unfold Push. cbn. by case_decide.
  - destruct (torch.from_blob _ _) as [t0| |]; cbn; [|done..].
    destruct (torch.clone _ _) as [[t m1]| |]; cbn; [|done..].
    unfold deref. cbn. destruct (heap w !! s) as [st|]; cbn; [|done].
    destruct (IsReady _); intros [= <-]; [|done].
    unfold Push. cbn. by case_decide.
Qed.

Lemma Decode_stream_connections pr w w' :
  Decode_stream pr w = Returns w' -> connections_ w' = connections_ w.
Proof.
  unfold Decode_stream, deref. destruct (heap w !! pr.2) as [st|]; [|done].
  by intros [= <-].
Qed.

Lemma Decode_stop_connections pr w w' :
  Decode_stop pr w = Returns w' -> connections_ w' = connections_ w.
Proof.
  unfold Decode_stop, deref. cbn. destruct (heap w !! pr.2) as [st|]; [|done].
  cbn. destruct (IsLastFrame _ _); by intros [= <-].
Qed.

Lemma Decode_rest_connections pr w w' :
  Decode_rest pr w = Returns w' -> connections_ w' = connections_ w.
Proof.
  unfold Decode_rest.
  destruct (Decode_stream pr w) as [w1| |] eqn:Hstream; cbn; [|done..].
  rewrite <- (Decode_stream_connections _ _ _ Hstream).
  destruct (deref w1 pr.2) as [st| |]; cbn; [|done..].
  destruct (Contains _ _ && IsReady _).
  - by intros [= <-].
  - apply Decode_stop_connections.
Qed.

Lemma Decode_connections w w' :
  Decode w = Returns w' -> connections_ w' = connections_ w.
Proof.
  unfold Decode, Decode_front. destruct (streams_ w) as [|pr rest].
  - by intros [= <-].
  - intros Hrest. by rewrite (Decode_rest_connections _ _ _ Hrest).
Qed.




End RegistryTheory.


(** * HTTP *)

Section HttpTheory.
Context {http_server_ : HttpServer}.

Lemma OnHttp_root : OnHttp "/" = OnHttp "/index.html".
Proof. done. Qed.

Lemma OnHttp_served resource found content :
  resource ≠ "/" -> resource ≠ "/upload.html" ->
  resource ≠ "/offline_record.html" ->
  ProcessRequest resource = (found, content) ->
  OnHttp resource = (if found then ok else not_found, content).
Proof.
  intros H1 H2 H3 Hp. unfold OnHttp.
  apply String.eqb_neq in H1, H2, H3. rewrite H1, H2, H3. cbn. by rewrite Hp.
Qed.

(** C5, as the code has it: a GET for [/upload.html], and likewise for
    [/offline_record.html], is answered with status 404 ([not_found]: the
    file server is not asked and [found] stays false) and a body equal to
    the inline HTML stub, which sends the user to [/streaming_record.html]. *)
Theorem OnHttp_shadowed :
  OnHttp "/upload.html" = (not_found, redirect_stub) ∧
  OnHttp "/offline_record.html" = (not_found, redirect_stub) ∧
  status_value not_found = 404 ∧
  mentions "/streaming_record.html" redirect_stub = true.
Proof. done. Qed.

End HttpTheory.

(** The status of the answer to [/upload.html] is not 200. *)
Lemma OnHttp_upload_status_not_200 :
  status_value (OnHttp (http_server_ := Demo.http_server) "/upload.html").1 ≠ 200.
Proof. done. Qed.

(** * The length of the tail padding

    [static_cast<int64_t>(0.3 * sample_rate)] for an integer sample rate
    [r]: the product of the [double] nearest to 0.3 and [r] has up to 77
    bits, is rounded to 53, and truncates to [3 r / 10]. *)













(** * Websocket messages *)

(** ** Bytes as floats *)

Lemma floats_of_bytes_length_le (k : nat) (bs : list ascii) :
  (length bs <= k)%nat ->
  length (floats_of_bytes bs) = (length bs / 4)%nat.
Proof.
  revert bs. induction k as [|k IH]; intros bs Hle.
  - destruct bs; [done | cbn in Hle; lia].
  - destruct bs as [|b0 [|b1 [|b2 [|b3 rest]]]]; try reflexivity.
    cbn [floats_of_bytes length] in *. rewrite IH by lia.
    change (S (S (S (S (length rest))))) with (4 + length rest)%nat.
    replace (4 + length rest)%nat with (length rest + 1 * 4)%nat by lia.
    rewrite Nat.div_add by done. lia.
Qed.

Lemma floats_of_bytes_length (bs : list ascii) :
  length (floats_of_bytes bs) = (length bs / 4)%nat.
Proof. by apply (floats_of_bytes_length_le (length bs)). Qed.

Lemma floats_of_bytes_take_le (k : nat) (bs : list ascii) :
  (length bs <= k)%nat ->
  floats_of_bytes (take (4 * (length bs / 4)) bs) = floats_of_bytes bs.
Proof.
  revert bs. induction k as [|k IH]; intros bs Hle.
  - destruct bs; [done | cbn in Hle; lia].
  - destruct bs as [|b0 [|b1 [|b2 [|b3 rest]]]]; try reflexivity.
    cbn [length] in *.
    change (S (S (S (S (length rest))))) with (4 + length rest)%nat.
    replace (4 + length rest)%nat with (length rest + 1 * 4)%nat by lia.
    rewrite Nat.div_add by done.
    replace (4 * (length rest / 4 + 1))%nat
      with (S (S (S (S (4 * (length rest / 4)))))) by lia.
    cbn [take floats_of_bytes]. rewrite IH by lia. done.
Qed.

Lemma floats_of_bytes_take (bs : list ascii) :
  floats_of_bytes (take (4 * (length bs / 4)) bs) = floats_of_bytes bs.
Proof. by apply (floats_of_bytes_take_le (length bs)). Qed.

Lemma floats_of_bytes_zeros (n : nat) :
  floats_of_bytes (replicate (4 * n) zero) = replicate n zero_float.
Proof.
  induction n as [|n IH]; [done|].
  replace (4 * S n)%nat with (S (S (S (S (4 * n))))) by lia.
  cbn [replicate floats_of_bytes]. by rewrite IH.
Qed.

Lemma length_list_ascii_of_string (s : string) :
  length (list_ascii_of_string s) = String.length s.
Proof. induction s as [|c s IH]; cbn; [done | by rewrite IH]. Qed.

Lemma to_int32_small (z : Z) :
  0 <= z <= Int.INT32_MAX -> Int.to_int32 z = z.
Proof.
  unfold Int.to_int32, Int.INT32_MAX. intros Hz.
  rewrite Z.mod_small by lia.
  destruct (z <? 2 ^ 31) eqn:Hlt; [done|]. apply Z.ltb_ge in Hlt. lia.
Qed.

Section MessageTheory.
Context {recognizer_ : OnlineRecognizer} {server_ : Endpoint}.
Implicit Types (w : World) (s : stream_ptr) (hdl : connection_hdl)
  (st : OnlineStream RecState).

(** The payload's block is gone after delivery, the new block stays. *)
Lemma mem_after_delivery (m : memory) (bytes block : list ascii) :
  let p := fresh (dom m) in
  let a := fresh (dom (<[p := bytes]> m)) in
  delete p (<[a := block]> (<[p := bytes]> m)) = <[a := block]> m
  ∧ m !! a = None ∧ a ≠ p.
Proof.
  intros p a.
  assert (m !! p = None) as Hp.
  { apply not_elem_of_dom. apply is_fresh. }
  assert (a ∉ dom (<[p := bytes]> m)) as Ha by apply is_fresh.
  rewrite dom_insert_L in Ha.
  assert (a ≠ p) as Hne by set_solver.
  assert (m !! a = None) as Hma by (apply not_elem_of_dom; set_solver).
  split_and!; [|done..].
  rewrite delete_insert_ne by done.
  rewrite delete_insert_eq. by rewrite delete_id.
Qed.

Lemma mem_unchanged_by_delivery (m : memory) (bytes : list ascii) :
  delete (fresh (dom m)) (<[fresh (dom m) := bytes]> m) = m.
Proof.
  rewrite delete_insert_eq. apply delete_id.
  apply not_elem_of_dom. apply is_fresh.
Qed.

Lemma set_mem_id w : set_mem (fun _ => mem w) w = w.
Proof. by destruct w. Qed.

(** C10: on a registered handle, a text frame whose payload is not exactly
    "Done" is ignored: [OnMessage] returns the server as it was, stream,
    queue, active set, executors and transport included, and so does the
    whole delivery. *)
Theorem text_frame_ignored w hdl s payload p :
  connections_ w !! hdl = Some s -> payload ≠ "Done" ->
  OnMessage hdl (mkMessage op_text payload p) w = Returns w ∧
  deliver hdl op_text payload w = Returns w.
Proof.
  intros Hs Hne. apply String.eqb_neq in Hne.
  split.
  - unfold OnMessage. rewrite Hs. cbn. by rewrite Hne.
  - unfold deliver, OnMessage. cbn. rewrite Hs. cbn. rewrite Hne. cbn.
    f_equal. destruct w. unfold set_mem. cbn. f_equal.
    apply mem_unchanged_by_delivery.
Qed.

(** What the delivery of a binary frame does, for a payload of any length. *)
Lemma deliver_binary w hdl s st payload :
  connections_ w !! hdl = Some s -> heap w !! s = Some st ->
  Z.of_nat (String.length payload) / 4 <= Int.INT32_MAX ->
  let bytes := list_ascii_of_string payload in
  let n := Z.of_nat (String.length payload) / 4 in
  let p := fresh (dom (mem w)) in
  let t := mkTensor (fresh (dom (<[p := bytes]> (mem w)))) n in
  let st1 := AcceptWaveform samp_freq t st in
  let w2 :=
    mkWorld (connections_ w) (streams_ w) (active_ w) (in_flight w)
            (<[s := st1]> (heap w))
            (<[data_ptr t := take (Z.to_nat (4 * n)) bytes]> (mem w))
            (io_conn_ w) (io_work_ w) (transport w) (alog w) in
  deliver hdl op_binary payload w =
  Returns (if IsReady st1 then post_work DecodeTask (Push hdl s w2) else w2).
Proof.
  intros Hs Hst Hn bytes n p t st1 w2.
  assert (0 <= n) as Hn0 by (apply Z.div_pos; lia).
  unfold deliver, OnMessage. cbn. rewrite Hs. cbn.
  unfold Int.sizeof_float. fold n. rewrite to_int32_small by lia.
  unfold torch.from_blob. rewrite (proj2 (Z.ltb_ge n 0)) by done. cbn.
  unfold torch.clone. cbn. fold p. rewrite lookup_insert_eq. cbn.
  unfold deref. cbn. rewrite Hst. cbn.
  fold bytes. fold t. fold st1.
  destruct (mem_after_delivery (mem w) bytes (take (Z.to_nat (4 * n)) bytes))
    as (Hmem & _ & _).
  fold p in Hmem. unfold Int.sizeof_float.
  destruct (IsReady st1); cbn; f_equal.
  - unfold Push. cbn. case_decide; unfold set_mem, post_work; cbn;
      by rewrite Hmem.
  - unfold set_mem. cbn. by rewrite Hmem.
Qed.

(** The tensor a binary frame leaves in the stream denotes the payload's
    floats, in a block that was not there before. *)
Lemma binary_tensor (m : memory) (payload : string) :
  let bytes := list_ascii_of_string payload in
  let n := Z.of_nat (String.length payload) / 4 in
  let p := fresh (dom m) in
  let t := mkTensor (fresh (dom (<[p := bytes]> m))) n in
  m !! data_ptr t = None ∧ data_ptr t ≠ p ∧
  tensor_elems (<[data_ptr t := take (Z.to_nat (4 * n)) bytes]> m) t =
  Some (floats_of_bytes bytes) ∧
  Z.of_nat (length (floats_of_bytes bytes)) = n.
Proof.
  intros bytes n p t.
  destruct (mem_after_delivery m bytes []) as (_ & Hnone & Hne).
  assert (Z.of_nat (length (floats_of_bytes bytes)) = n) as Hlen.
  { rewrite floats_of_bytes_length. unfold bytes.
    rewrite length_list_ascii_of_string. unfold n.
    by rewrite Nat2Z.inj_div. }
  split_and!; [done..| |done].
  unfold tensor_elems. rewrite lookup_insert_eq.
  assert (Z.to_nat (4 * n) = (4 * (length bytes / 4))%nat) as ->.
  { rewrite <- Hlen, floats_of_bytes_length. lia. }
  rewrite floats_of_bytes_take.
  change (numel t) with n. rewrite Hlen.
  assert (0 <= n) as Hn0 by (rewrite <- Hlen; lia).
  rewrite (proj2 (Z.leb_le 0 n)) by done.
  rewrite Z.leb_refl. cbn. f_equal.
  apply take_ge. lia.
Qed.

Lemma num_samples_AcceptWaveform st rate (t : Tensor) :
  num_samples (AcceptWaveform rate t st) = num_samples st + numel t.
Proof.
  unfold num_samples, AcceptWaveform. cbn.
  induction (waveform st) as [|t' l IH]; cbn; [lia|]. rewrite IH. lia.
Qed.


(** C8: a binary frame of [4 * n] bytes is read as [n] floats, four bytes
    each in the order of the payload.  The tensor the stream accepts views a
    block of its own: new, holding a copy of the payload, and still there
    after the delivery has freed the payload.  The stream's sample count
    grows by exactly [n].  Then, iff the stream is ready, the pair is pushed
    and one [Decode] is posted to the compute executor. *)
Theorem binary_frame w hdl s st payload n :
  connections_ w !! hdl = Some s -> heap w !! s = Some st ->
  Z.of_nat (String.length payload) = 4 * n -> n <= Int.INT32_MAX ->
  exists t : Tensor,
    let bytes := list_ascii_of_string payload in
    let st1 := AcceptWaveform samp_freq t st in
    let w2 :=
      mkWorld (connections_ w) (streams_ w) (active_ w) (in_flight w)
              (<[s := st1]> (heap w)) (<[data_ptr t := bytes]> (mem w))
              (io_conn_ w) (io_work_ w) (transport w) (alog w) in
    numel t = n ∧
    Z.of_nat (length (floats_of_bytes bytes)) = n ∧
    tensor_elems (mem w2) t = Some (floats_of_bytes bytes) ∧
    mem w !! data_ptr t = None ∧
    num_samples st1 = num_samples st + n ∧
    deliver hdl op_binary payload w =
    Returns (if IsReady st1 then post_work DecodeTask (Push hdl s w2) else w2).
Proof.
  intros Hs Hst Hlen Hn.
  assert (Z.of_nat (String.length payload) / 4 = n) as Hdiv.
  { rewrite Hlen, Z.mul_comm. by apply Z.div_mul. }
  pose proof (deliver_binary w hdl s st payload Hs Hst) as Hdel.
  pose proof (binary_tensor (mem w) payload) as Htensor.
  cbv zeta in Hdel, Htensor. rewrite Hdiv in Hdel, Htensor.
  destruct Htensor as (Hnone & _ & Helems & Hfl).
  set (bytes := list_ascii_of_string payload) in *.
  assert (take (Z.to_nat (4 * n)) bytes = bytes) as Htake.
  { apply take_ge. unfold bytes. rewrite length_list_ascii_of_string. lia. }
  rewrite Htake in Hdel, Helems.
  eexists. cbv zeta. split_and!; [..|apply Hdel; lia]; try done.
  by rewrite num_samples_AcceptWaveform.
Qed.

(** C7, as the code has it: a binary frame whose length is not a multiple
    of 4 is not dropped but cut to the largest multiple of 4 below it.  The
    stream accepts the [len / 4] floats of that prefix, its sample count
    grows by [len / 4], the [len mod 4] bytes left over are ignored, and
    nothing is logged. *)
Theorem binary_frame_truncated w hdl s st payload :
  connections_ w !! hdl = Some s -> heap w !! s = Some st ->
  Z.of_nat (String.length payload) mod 4 ≠ 0 ->
  Z.of_nat (String.length payload) / 4 <= Int.INT32_MAX ->
  exists (t : Tensor) (w' : World),
    let bytes := list_ascii_of_string payload in
    let len := Z.of_nat (String.length payload) in
    let st1 := AcceptWaveform samp_freq t st in
    deliver hdl op_binary payload w = Returns w' ∧
    heap w' = <[s := st1]> (heap w) ∧
    numel t = len / 4 ∧
    mem w' = <[data_ptr t := take (Z.to_nat (len - len mod 4)) bytes]> (mem w) ∧
    tensor_elems (mem w') t = Some (floats_of_bytes bytes) ∧
    num_samples st1 = num_samples st + len / 4 ∧
    alog w' = alog w.
Proof.
  intros Hs Hst _ Hn.
  pose proof (deliver_binary w hdl s st payload Hs Hst Hn) as Hdel.
  pose proof (binary_tensor (mem w) payload) as Htensor.
  cbv zeta in Hdel, Htensor.
  destruct Htensor as (Hnone & _ & Helems & Hfl).
  set (len := Z.of_nat (String.length payload)) in *.
  assert (len - len mod 4 = 4 * (len / 4)) as Hcut.
  { pose proof (Z.div_mod len 4). lia. }
  eexists. eexists. cbv zeta. rewrite Hcut.
  split; [apply Hdel|].
  destruct (IsReady _); [unfold Push; case_decide|];
    (split_and!; [done..| |done]; by rewrite num_samples_AcceptWaveform).
Qed.


Lemma zeros_tensor (m : memory) (a : addr) (n : Z) :
  0 <= n ->
  tensor_elems (<[a := replicate (Z.to_nat (4 * n)) zero]> m) (mkTensor a n) =
  Some (replicate (Z.to_nat n) zero_float).
Proof.
  intros Hn. unfold tensor_elems. cbn [data_ptr numel].
  rewrite lookup_insert_eq.
  replace (Z.to_nat (4 * n)) with (4 * Z.to_nat n)%nat by lia.
  rewrite floats_of_bytes_zeros, length_replicate.
  rewrite (proj2 (Z.leb_le 0 n)) by done.
  rewrite (proj2 (Z.leb_le n (Z.of_nat (Z.to_nat n)))) by lia. cbn.
  f_equal. apply take_ge. rewrite length_replicate. lia.
Qed.


End MessageTheory.


Lemma text_frame_ignored_witness :
  deliver 1%nat op_text "done" Demo.w2 = Returns Demo.w2.
Proof.
  by apply (text_frame_ignored Demo.w2 1%nat Demo.s1 "done" 1%positive).
Defined.

Lemma binary_frame_witness :
  exists t : Tensor,
    numel t = 2 ∧
    tensor_elems (<[data_ptr t := list_ascii_of_string Demo.bytes8]> ∅) t =
    Some [("a", "b", "c", "d"); ("e", "f", "g", "h")]%char ∧
    deliver 1%nat op_binary Demo.bytes8 Demo.w1 =
    Returns (post_work DecodeTask (Push 1%nat Demo.s1
      (mkWorld (connections_ Demo.w1) [] ∅ []
         (<[Demo.s1 := mkStream [t] false 0%nat]> (heap Demo.w1))
         (<[data_ptr t := list_ascii_of_string Demo.bytes8]> ∅)
         [] [] (transport Demo.w1) []))).
Proof.
  destruct (binary_frame Demo.w1 1%nat Demo.s1 (mkStream [] false 0%nat)
              Demo.bytes8 2) as (t & Hn & _ & Hel & _ & _ & Hdel);
    [done..|].
  exists t. by split_and!.
Defined.

(** A binary frame of five bytes leaves one sample in the stream. *)
Lemma binary_frame_of_5_bytes_is_not_dropped :
  Z.of_nat (String.length Demo.bytes5) mod 4 ≠ 0 ∧
  num_samples <$> heap Demo.w1 !! Demo.s1 = Some 0 ∧
  num_samples <$>
    heap (Demo.run (deliver 1%nat op_binary Demo.bytes5 Demo.w1) Demo.w1)
      !! Demo.s1 = Some 1.
Proof. by vm_compute. Qed.

Lemma binary_frame_truncated_witness :
  exists (t : Tensor) (w' : Demo.world),
    deliver 1%nat op_binary Demo.bytes5 Demo.w1 = Returns w' ∧
    numel t = 1 ∧
    mem w' = <[data_ptr t := ["a"; "b"; "c"; "d"]%char]> ∅ ∧
    tensor_elems (mem w') t = Some [("a", "b", "c", "d")]%char.
Proof.
  destruct (binary_frame_truncated Demo.w1 1%nat Demo.s1
              (mkStream [] false 0%nat) Demo.bytes5)
    as (t & w' & Hdel & _ & Hn & Hmem & Hel & _); [done..|].
  exists t, w'. by split_and!.
Defined.


(** * The running server *)

Lemma to_int32_le (z : Z) : 0 <= z -> Int.to_int32 z <= z.
Proof.
  intros Hz. unfold Int.to_int32.
  pose proof (Z.mod_le z (2 ^ 32) Hz ltac:(lia)).
  destruct (_ <? _); lia.
Qed.

Lemma floats_of_bytes_take_length (bs : list ascii) (n : nat) :
  (4 * n <= length bs)%nat ->
  length (floats_of_bytes (take (4 * n) bs)) = n.
Proof.
  intros Hn. rewrite floats_of_bytes_length, length_take, Nat.min_l by done.
  rewrite Nat.mul_comm. by apply Nat.div_mul.
Qed.

Section ServerTheory.
Context {recognizer_ : OnlineRecognizer} {server_ : Endpoint}.
Implicit Types (w : World) (s : stream_ptr) (hdl : connection_hdl)
  (st : OnlineStream RecState) (pr : connection_hdl * stream_ptr).

(** What a delivery can do to the server: nothing, or one new tensor in a
    new block, appended to the stream of the handle, and then, iff the
    stream is ready, a push and a posted [Decode]. *)
Lemma deliver_shape hdl op payload w w' :
  deliver hdl op payload w = Returns w' ->
  w' = w ∨
  exists s st (t : Tensor) (block : list ascii) (fin : bool),
    connections_ w !! hdl = Some s ∧ heap w !! s = Some st ∧
    mem w !! data_ptr t = None ∧
    is_Some (tensor_elems (<[data_ptr t := block]> (mem w)) t) ∧
    let st' := mkStream (waveform st ++ [t]) fin (rec_state st) in
    let w2 :=
      mkWorld (connections_ w) (streams_ w) (active_ w) (in_flight w)
              (<[s := st']> (heap w)) (<[data_ptr t := block]> (mem w))
              (io_conn_ w) (io_work_ w) (transport w) (alog w) in
    (IsReady st' = false ∧ w' = w2) ∨
    (IsReady st' = true ∧ w' = post_work DecodeTask (Push hdl s w2)).
Proof.
  unfold deliver, OnMessage. cbn.
  destruct (connections_ w !! hdl) as [s|] eqn:Hs; [|done].
  assert (set_mem (delete (fresh (dom (mem w))))
            (set_mem <[fresh (dom (mem w)) := list_ascii_of_string payload]> w) = w)
    as Hunch.
  { destruct w. unfold set_mem. cbn. f_equal. apply mem_unchanged_by_delivery. }
  destruct op; cbn; try (intros [= <-]; left; exact Hunch).
  - destruct (String.eqb payload "Done"); cbn; [|intros [= <-]; left; exact Hunch].
    destruct (Fp.to_int64 _) as [n|]; cbn; [|done].
    unfold torch.zeros. destruct (Z.ltb_spec n 0) as [|Hn]; cbn; [done|].
    unfold deref. cbn. destruct (heap w !! s) as [st|] eqn:Hst; cbn; [|done].
    destruct (mem_after_delivery (mem w) (list_ascii_of_string payload)
                (replicate (Z.to_nat (Int.sizeof_float * n)) zero))
      as (Hmem & Hnone & _).
    set (t := mkTensor (fresh (dom (<[fresh (dom (mem w)) := list_ascii_of_string payload]> (mem w)))) n) in *.
    intros Hret. right.
    exists s, st, t, (replicate (Z.to_nat (4 * n)) zero), true.
    split_and!; [done..| |].
    { rewrite zeros_tensor by done. by eexists. }
    cbv zeta. revert Hret. unfold InputFinished, AcceptWaveform. cbn.
    destruct (IsReady _); cbn; intros [= <-]; [right|left]; (split; [done|]).
    + unfold Push. cbn. case_decide; unfold set_mem, post_work; cbn;
        by rewrite Hmem.
    + unfold set_mem. cbn. by rewrite Hmem.
  - set (len := Z.of_nat (String.length payload)).
    assert (0 <= len / Int.sizeof_float) as Hdiv
      by (apply Z.div_pos; unfold len, Int.sizeof_float; lia).
    pose proof (to_int32_le _ Hdiv) as Hle.
    set (n := Int.to_int32 (len / Int.sizeof_float)) in *.
    unfold torch.from_blob. destruct (Z.ltb_spec n 0) as [|Hn]; cbn; [done|].
    unfold torch.clone. cbn. rewrite lookup_insert_eq. cbn.
    unfold deref. cbn. destruct (heap w !! s) as [st|] eqn:Hst; cbn; [|done].
    set (bytes := list_ascii_of_string payload) in *.
    destruct (mem_after_delivery (mem w) bytes
                (take (Z.to_nat (Int.sizeof_float * n)) bytes))
      as (Hmem & Hnone & _).
    set (t := mkTensor (fresh (dom (<[fresh (dom (mem w)) := bytes]> (mem w)))) n) in *.
    intros Hret. right.
    exists s, st, t, (take (Z.to_nat (4 * n)) bytes), (input_finished st).
    split_and!; [done..| |].
    { unfold tensor_elems. rewrite lookup_insert_eq. cbn [numel t].
      assert (Z.to_nat (4 * n) = (4 * Z.to_nat n)%nat) as -> by lia.
      rewrite floats_of_bytes_take_length.
      - rewrite (proj2 (Z.leb_le 0 n)) by done.
        rewrite (proj2 (Z.leb_le n _)) by lia. by eexists.
      - unfold bytes. rewrite length_list_ascii_of_string.
        unfold Int.sizeof_float in *.
        pose proof (Z.mul_div_le len 4 ltac:(lia)). unfold len in *. lia. }
    cbv zeta. revert Hret. unfold AcceptWaveform. cbn.
    destruct (IsReady _); cbn; intros [= <-]; [right|left]; (split; [done|]).
    + unfold Push. cbn. case_decide; unfold set_mem, post_work; cbn;
        by rewrite Hmem.
    + unfold set_mem. cbn. by rewrite Hmem.
Qed.

(** What a [Decode] can do to the server. *)
Lemma Decode_nonempty w hdl s rest st :
  streams_ w = (hdl, s) :: rest -> heap w !! s = Some st ->
  let st' := DecodeStream st in
  let hyp := SendTask hdl (GetResultJson st') in
  Decode w = Returns
    (if Contains w hdl && IsReady st' then
       mkWorld (connections_ w) (rest ++ [(hdl, s)]) (active_ w)
               (in_flight w) (<[s := st']> (heap w)) (mem w)
               (io_conn_ w ++ [hyp]) (io_work_ w ++ [DecodeTask])
               (transport w) (alog w)
     else
       mkWorld (connections_ w) rest (active_ w ∖ {[s]})
               (in_flight w) (<[s := st']> (heap w)) (mem w)
               ((io_conn_ w ++ [hyp]) ++
                (if IsLastFrame st' (NumFramesReady st' - 1)
                 then [SendTask hdl "Done"] else []))
               (io_work_ w) (transport w) (alog w)).
Proof.
  intros Hq Hst st' hyp.
  unfold Decode, Decode_front. rewrite Hq.
  unfold Decode_rest, Decode_stream, deref. cbn. rewrite Hst. cbn.
  rewrite lookup_insert_eq. cbn. fold st'. fold hyp.
  change (Contains _ hdl) with (Contains w hdl).
  destruct (Contains w hdl && IsReady st').
  - unfold Decode_continue, requeue, post_work. cbn. by rewrite decide_True.
  - unfold Decode_stop, deref, retire, post_conn, set_in_flight, set_active.
    cbn. rewrite lookup_insert_eq. cbn. fold st'.
    destruct (IsLastFrame _ _); cbn;
      rewrite decide_True by done; by rewrite ?app_nil_r.
Qed.

Lemma Decode_empty w : streams_ w = [] -> Decode w = Returns w.
Proof. intros Hq. unfold Decode, Decode_front. by rewrite Hq. Qed.

Lemma Decode_dangling w hdl s rest :
  streams_ w = (hdl, s) :: rest -> heap w !! s = None -> Decode w = Undefined.
Proof.
  intros Hq Hst. unfold Decode, Decode_front. rewrite Hq.
  unfold Decode_rest, Decode_stream, deref. cbn. by rewrite Hst.
Qed.

(** *** The invariant of the running server *)

Lemma server_inv_initial t : server_inv (initial_world t).
Proof.
  split; [split_and!|].
  - apply inv_initial.
  - done.
  - split; cbn.
    + intros hdl s Hl. by rewrite lookup_empty in Hl.
    + by intros pr ?%elem_of_nil.
  - intros h1 h2 s Hl. cbn in Hl. by rewrite lookup_empty in Hl.
  - split; cbn; constructor.
  - unfold decode_pending. cbn. lia.
Qed.

Lemma core_inv_OnOpen hdl w : core_inv w -> core_inv (OnOpen hdl w).
Proof.
  intros (Hd & Hf & [Hreg Hq] & Hinj & Hrt).
  assert (heap w !! fresh (dom (heap w)) = None) as Hfresh.
  { apply not_elem_of_dom, is_fresh. }
  unfold OnOpen, CreateStream. cbn.
  split_and!; try done.
  - split; cbn.
    + intros h s Hl.
      apply lookup_insert_is_Some'.
      destruct (connections_ w !! hdl) eqn:Hh.
      * right. by apply (Hreg h).
      * destruct (decide (hdl = h)) as [<-|Hne].
        -- rewrite lookup_insert_eq in Hl. left. congruence.
        -- rewrite lookup_insert_ne in Hl by done. right. by apply (Hreg h).
    + intros pr Hin. apply lookup_insert_is_Some'. right. by apply Hq.
  - intros h1 h2 s. cbn.
    destruct (connections_ w !! hdl) eqn:Hh; [apply Hinj|].
    destruct (decide (hdl = h1)) as [<-|Hne1];
      destruct (decide (hdl = h2)) as [<-|Hne2]; try done.
    + rewrite lookup_insert_eq, lookup_insert_ne by done.
      intros [= <-] Hl. apply Hreg in Hl as [? Hl]. congruence.
    + rewrite lookup_insert_eq, lookup_insert_ne by done.
      intros Hl [= <-]. apply Hreg in Hl as [? Hl]. congruence.
    + rewrite !lookup_insert_ne by done. apply Hinj.
Qed.

Lemma core_inv_OnClose hdl w : core_inv w -> core_inv (OnClose hdl w).
Proof.
  intros (Hd & Hf & [Hreg Hq] & Hinj & Hrt).
  split_and!; try done.
  - split; cbn; [|done].
    intros h s [_ Hl]%lookup_delete_Some. by apply (Hreg h).
  - intros h1 h2 s. cbn.
    intros [_ Hl1]%lookup_delete_Some [_ Hl2]%lookup_delete_Some.
    by apply (Hinj h1 h2 s).
Qed.

Lemma Send_fields hdl text w :
  exists t l,
    Send hdl text w =
    mkWorld (connections_ w) (streams_ w) (active_ w) (in_flight w)
            (heap w) (mem w) (io_conn_ w) (io_work_ w) t l.
Proof.
  unfold Send. destruct (negb _).
  - exists (transport w), (alog w). by destruct w.
  - destruct (server_send _ _ _) as [t [msg|]]; by eexists _, _.
Qed.

Lemma server_inv_deliver hdl op payload w w' :
  server_inv w -> deliver hdl op payload w = Returns w' -> server_inv w'.
Proof.
  intros Hinv Hdel.
  destruct (deliver_shape _ _ _ _ _ Hdel)
    as [->|(s & st & t & block & fin & Hs & Hst & _ & _ & Hcase)]; [done|].
  cbv zeta in Hcase.
  set (st' := mkStream (waveform st ++ [t]) fin (rec_state st)) in *.
  set (w2 := mkWorld _ _ _ _ _ _ _ _ _ _) in *.
  destruct Hinv as ((Hd & Hf & [Hreg Hq] & Hinj & [Hrw Hrc]) & Hpend).
  assert (server_inv w2) as Hinv2.
  { split; [split_and!|]; try done.
    split; cbn.
    - intros h' s' Hl. apply lookup_insert_is_Some'. right. by apply (Hreg h').
    - intros pr Hin. apply lookup_insert_is_Some'. right. by apply Hq. }
  destruct Hcase as [[_ ->]|[_ ->]]; [done|].
  destruct Hinv2 as ((Hd2 & Hf2 & [Hreg2 Hq2] & Hinj2 & [Hrw2 Hrc2]) & Hpend2).
  split; [split_and!|].
  - apply (inv_same_dispatcher (Push hdl s w2)); [done | by apply Push_inv].
  - unfold Push. by case_decide.
  - split.
    + unfold Push. by case_decide.
    + intros pr. unfold Push. case_decide; cbn; [apply Hq2|].
      intros [Hin| ->%list_elem_of_singleton]%elem_of_app; [by apply Hq2|].
      cbn. apply lookup_insert_is_Some'. by left.
  - unfold Push. by case_decide.
  - split.
    + unfold Push. case_decide; cbn; (apply Forall_app; split; [done|]);
        by constructor.
    + unfold Push. by case_decide.
  - unfold decode_pending in *. unfold Push. case_decide; cbn in *;
      rewrite ?length_app; cbn; lia.
Qed.

(** [Decode] keeps the invariants, and on a queue that is not empty it
    takes one entry for the task it was, or gives back both. *)
Lemma core_inv_Decode w w' :
  core_inv w -> Decode w = Returns w' ->
  core_inv w' ∧
  (streams_ w ≠ [] ->
   (length (streams_ w') + length (io_work_ w) + 1 <=
    length (streams_ w) + length (io_work_ w'))%nat).
Proof.
  intros Hinv Hdec.
  destruct (streams_ w) as [|[hdl s] rest] eqn:Hstreams.
  { rewrite Decode_empty in Hdec by done. by injection Hdec as <-. }
  destruct Hinv as (Hd & Hf & [Hreg Hq] & Hinj & [Hrw Hrc]).
  pose proof (Decode_inv _ _ Hd Hdec) as Hd'.
  assert (is_Some (heap w !! s)) as [st Hst].
  { apply (Hq (hdl, s)). rewrite Hstreams. by left. }
  rewrite (Decode_nonempty w hdl s rest st Hstreams Hst) in Hdec.
  injection Hdec as <-.
  assert (forall pr, pr ∈ rest ++ [(hdl, s)] ->
            is_Some (<[s := DecodeStream st]> (heap w) !! pr.2)) as Hq'.
  { intros pr Hin. apply lookup_insert_is_Some'. right. apply Hq.
    rewrite Hstreams. apply elem_of_app in Hin as [Hin|Hin%list_elem_of_singleton].
    - by right.
    - subst. by left. }
  destruct (Contains w hdl && IsReady _).
  - split; [split_and!|]; try done.
    + split; cbn; [|done].
      intros h' s' Hl. apply lookup_insert_is_Some'. right. by apply (Hreg h').
    + split; cbn.
      * apply Forall_app. split; [done|]. by constructor.
      * apply Forall_app. split; [done|]. constructor; [by eexists _, _|done].
    + intros _. cbn. rewrite !length_app. cbn. lia.
  - split; [split_and!|]; try done.
    + split; cbn.
      * intros h' s' Hl. apply lookup_insert_is_Some'. right. by apply (Hreg h').
      * intros pr Hin. apply Hq'. apply elem_of_app. by left.
    + split; cbn; [done|]. apply Forall_app. split.
      * apply Forall_app. split; [done|]. constructor; [by eexists _, _|done].
      * destruct (IsLastFrame _ _); constructor; [by eexists _, _|done].
    + intros _. cbn. lia.
Qed.


Lemma server_inv_run_conn w w' :
  server_inv w -> run_conn w = Returns w' -> server_inv w'.
Proof.
  intros Hinv.
  unfold run_conn. destruct (io_conn_ w) as [|t rest] eqn:Hc.
  { by intros [= <-]. }
  destruct Hinv as ((Hd & Hf & [Hreg Hq] & Hinj & [Hrw Hrc]) & Hpend).
  rewrite Hc in Hrc.
  apply Forall_cons in Hrc as [(hdl & text & ->) Hrc]. cbn.
  destruct (Send_fields hdl text (set_io_conn rest w)) as (t & l & ->).
  intros [= <-]. by split; [split_and!|].
Qed.

Lemma run_work_shape w w' :
  server_inv w -> run_work w = Returns w' ->
  (io_work_ w = [] ∧ w' = w) ∨
  exists rest, io_work_ w = DecodeTask :: rest ∧ Decode (set_io_work rest w) = Returns w'.
Proof.
  intros ((_ & _ & _ & _ & [Hrw _]) & _).
  unfold run_work. destruct (io_work_ w) as [|t rest] eqn:Hc.
  { intros [= <-]. by left. }
  rewrite ?Hc in Hrw.
  apply Forall_cons in Hrw as [-> Hrw]. cbn. intros Hdec. right. by exists rest.
Qed.

Lemma server_inv_run_work w w' :
  server_inv w -> run_work w = Returns w' -> server_inv w'.
Proof.
  intros Hinv Hrun.
  destruct (run_work_shape _ _ Hinv Hrun) as [[_ ->]|(rest & Hw & Hdec)]; [done|].
  destruct Hinv as ((Hd & Hf & [Hreg Hq] & Hinj & [Hrw Hrc]) & Hpend).
  rewrite Hw in Hrw. apply Forall_cons in Hrw as [_ Hrw].
  assert (core_inv (set_io_work rest w)) as Hcore by (by split_and!).
  destruct (core_inv_Decode _ _ Hcore Hdec) as [Hcore' Hbal].
  split; [done|].
  unfold decode_pending in *. rewrite Hw in Hpend. cbn in Hpend, Hbal.
  destruct (streams_ w) as [|pr q] eqn:Hstreams.
  - rewrite Decode_empty in Hdec by done. injection Hdec as <-. cbn.
    rewrite Hstreams. cbn. lia.
  - specialize (Hbal ltac:(done)). cbn in *. lia.
Qed.

Lemma server_inv_perform a w w' :
  server_inv w -> perform a w = Returns w' -> server_inv w'.
Proof.
  destruct a; cbn.
  - intros [Hcore Hpend] [= <-]. split; [by apply core_inv_OnOpen | done].
  - intros [Hcore Hpend] [= <-]. split; [by apply core_inv_OnClose | done].
  - apply server_inv_deliver.
  - apply server_inv_run_conn.
  - apply server_inv_run_work.
Qed.

Lemma server_inv_perform_all acts w w' :
  server_inv w -> perform_all acts w = Returns w' -> server_inv w'.
Proof.
  revert w. induction acts as [|a acts IH]; intros w Hinv; cbn.
  - by intros [= <-].
  - destruct (perform a w) as [w1| |] eqn:Ha; cbn; [|done..].
    apply IH. by eapply server_inv_perform.
Qed.

Lemma served_inv w : served w -> server_inv w.
Proof.
  intros (t & acts & Hrun).
  by eapply server_inv_perform_all; [apply server_inv_initial|].
Qed.

(** *** The registry follows the connections *)

Lemma run_task_connections t w w' :
  run_task t w = Returns w' -> connections_ w' = connections_ w.
Proof.
  destruct t as [hdl text|]; cbn.
  - destruct (Send_fields hdl text w) as (tr & l & ->). by intros [= <-].
  - apply Decode_connections.
Qed.

Lemma deliver_connections hdl op payload w w' :
  deliver hdl op payload w = Returns w' -> connections_ w' = connections_ w.
Proof.
  unfold deliver. destruct (OnMessage _ _ _) as [w1| |] eqn:Hm; cbn; [|done..].
  intros [= <-]. cbn. by rewrite (OnMessage_connections _ _ _ _ Hm).
Qed.

Lemma perform_Contains a w w' hdl :
  perform a w = Returns w' ->
  Contains w' hdl = open_after [a] hdl (Contains w hdl).
Proof.
  unfold Contains. destruct a as [h|h|h op payload| |]; cbn.
  - intros [= <-]. unfold OnOpen, CreateStream. cbn.
    case_decide as Heq.
    + subst h. destruct (connections_ w !! hdl) eqn:Hl.
      * rewrite Hl. by apply bool_decide_eq_true.
      * rewrite lookup_insert_eq. by apply bool_decide_eq_true.
    + destruct (connections_ w !! h); [done|]. by rewrite lookup_insert_ne.
  - intros [= <-]. cbn. case_decide as Heq.
    + subst h. rewrite lookup_delete_eq. apply bool_decide_eq_false.
      by intros [? ?].
    + by rewrite lookup_delete_ne.
  - intros Hdel. by rewrite (deliver_connections _ _ _ _ _ Hdel).
  - unfold run_conn. destruct (io_conn_ w) as [|t rest]; [by intros [= <-]|].
    intros Hrun. by rewrite (run_task_connections _ _ _ Hrun).
  - unfold run_work. destruct (io_work_ w) as [|t rest]; [by intros [= <-]|].
    intros Hrun. by rewrite (run_task_connections _ _ _ Hrun).
Qed.

Lemma open_after_cons a acts hdl was :
  open_after (a :: acts) hdl was = open_after acts hdl (open_after [a] hdl was).
Proof. by destruct a. Qed.

(** X2: a handle is in the registry exactly when, among the handlers run so
    far, its last [OnOpen] or [OnClose] was an [OnOpen]: nothing else
    inserts or removes an entry. *)
Theorem registry_tracks_open acts w w' hdl :
  perform_all acts w = Returns w' ->
  Contains w' hdl = open_after acts hdl (Contains w hdl).
Proof.
  revert w. induction acts as [|a acts IH]; intros w; cbn [perform_all].
  - by intros [= <-].
  - rewrite open_after_cons.
    destruct (perform a w) as [w1| |] eqn:Ha; cbn [mbind outcome_bind]; [|done..].
    intros Hrest. rewrite (IH _ Hrest).
    by rewrite (perform_Contains _ _ _ hdl Ha).
Qed.



(** X5: the compute executor holds only [Decode] tasks, at least one for
    every entry of the ready queue, and the connection executor holds only
    [Send] tasks. *)
Theorem served_tasks w :
  served w -> tasks_routed w ∧ decode_pending w.
Proof. intros Hs. apply served_inv in Hs as ((_ & _ & _ & _ & Hrt) & Hp). done. Qed.

(** X1: at every instant of every interleaving at most one decode step is
    in flight for a stream, and a stream in flight is not in the ready
    queue: no two workers run [DecodeStream] on the same stream. *)
Theorem one_decode_per_stream w :
  reachable w ->
  NoDup (decoding w) ∧ (forall s, s ∈ decoding w -> s ∉ queued w).
Proof.
  intros (t & evs & Hsteps).
  pose proof (steps_inv _ _ _ (inv_initial t) Hsteps) as [_ Hnd].
  apply NoDup_app in Hnd as (_ & Hdisj & Hnd). split; [done|].
  intros s Hd Hq. by apply (Hdisj s).
Qed.

(** X6: a stream whose connection is closed leaves the dispatcher at its
    next decode step: [Decode] takes it off the queue and out of the active
    set, and posts no further [Decode]. *)
Theorem Decode_after_close w hdl s rest st :
  dispatcher_inv w ->
  streams_ w = (hdl, s) :: rest -> heap w !! s = Some st ->
  Contains w hdl = false ->
  exists w',
    Decode w = Returns w' ∧ streams_ w' = rest ∧
    (s ∉ active_ w') ∧ (s ∉ queued w') ∧ io_work_ w' = io_work_ w.
Proof.
  intros [_ Hnd] Hq Hst Hc.
  pose proof (Decode_nonempty w hdl s rest st Hq Hst) as Hdec.
  cbv zeta in Hdec. rewrite Hc in Hdec. cbn in Hdec.
  eexists. split; [exact Hdec|]. cbn. split_and!; try done.
  - intros [_ Hn]%elem_of_difference. apply Hn. by apply elem_of_singleton.
  - unfold queued in *. rewrite Hq in Hnd. cbn in Hnd.
    apply NoDup_cons in Hnd as [Hnot _]. unfold queued. cbn.
    intros Hin. apply Hnot. apply elem_of_app. by left.
Qed.

(** X7: a frame changes no stream but the one of its own handle, and no
    entry of the registry. *)
Theorem message_touches_one_stream hdl op payload w w' s' :
  deliver hdl op payload w = Returns w' ->
  connections_ w !! hdl ≠ Some s' ->
  heap w' !! s' = heap w !! s' ∧ connections_ w' = connections_ w.
Proof.
  intros Hdel Hne. split; [|by apply deliver_connections in Hdel].
  destruct (deliver_shape _ _ _ _ _ Hdel)
    as [->|(s & st & t & block & fin & Hs & Hst & _ & _ & Hcase)]; [done|].
  assert (s ≠ s') as Hss by congruence.
  cbv zeta in Hcase. destruct Hcase as [[_ ->]|[_ ->]]; cbn.
  - by rewrite lookup_insert_ne.
  - unfold Push. case_decide; cbn; by rewrite lookup_insert_ne.
Qed.

(** X8: on a registered handle a frame that is neither text nor binary
    changes nothing. *)
Theorem control_frame_ignored w hdl s op payload :
  connections_ w !! hdl = Some s -> op ≠ op_text -> op ≠ op_binary ->
  deliver hdl op payload w = Returns w.
Proof.
  intros Hs Ht Hb. unfold deliver, OnMessage. cbn. rewrite Hs.
  destruct op; try done; cbn; f_equal; destruct w; unfold set_mem; cbn; f_equal;
    apply mem_unchanged_by_delivery.
Qed.

Lemma deliver_binary_result w hdl s st payload :
  connections_ w !! hdl = Some s -> heap w !! s = Some st ->
  Z.of_nat (String.length payload) / 4 <= Int.INT32_MAX ->
  let bytes := list_ascii_of_string payload in
  let n := Z.of_nat (String.length payload) / 4 in
  let t := mkTensor (fresh (dom (<[fresh (dom (mem w)) := bytes]> (mem w)))) n in
  exists w',
    deliver hdl op_binary payload w = Returns w' ∧
    heap w' = <[s := AcceptWaveform samp_freq t st]> (heap w) ∧
    mem w' = <[data_ptr t := take (Z.to_nat (4 * n)) bytes]> (mem w) ∧
    connections_ w' = connections_ w.
Proof.
  intros Hs Hst Hn bytes n t.
  pose proof (deliver_binary w hdl s st payload Hs Hst Hn) as Hdel.
  cbv zeta in Hdel. fold bytes n t in Hdel.
  eexists. split; [exact Hdel|].
  destruct (IsReady _); [unfold Push; case_decide|]; done.
Qed.

(** X9: a binary frame of fewer than four bytes, the empty one too, adds an
    empty tensor: the sample count of the stream does not change. *)
Theorem short_binary_frame w hdl s st payload :
  connections_ w !! hdl = Some s -> heap w !! s = Some st ->
  (String.length payload < 4)%nat ->
  exists (t : Tensor) (w' : World),
    deliver hdl op_binary payload w = Returns w' ∧
    heap w' !! s = Some (AcceptWaveform samp_freq t st) ∧
    numel t = 0 ∧ tensor_elems (mem w') t = Some [] ∧
    num_samples (AcceptWaveform samp_freq t st) = num_samples st.
Proof.
  intros Hs Hst Hlen.
  assert (Z.of_nat (String.length payload) / 4 = 0) as Hdiv
    by (apply Z.div_small; lia).
  destruct (deliver_binary_result w hdl s st payload Hs Hst)
    as (w' & Hdel & Hheap & Hmem & _).
  { rewrite Hdiv. unfold Int.INT32_MAX. lia. }
  rewrite Hdiv in Hheap, Hmem.
  eexists _, w'. split; [exact Hdel|]. rewrite Hheap, Hmem.
  rewrite lookup_insert_eq, num_samples_AcceptWaveform. cbn.
  split_and!; [done | done | | cbn; lia].
  unfold tensor_elems. cbn. by rewrite lookup_insert_eq.
Qed.

(** X10: consecutive binary frames on a connection add up: the sample count
    of its stream grows by the sum of [len / 4] over the payloads. *)
Theorem binary_frames_add_up payloads w hdl s st :
  connections_ w !! hdl = Some s -> heap w !! s = Some st ->
  Forall (fun p => Z.of_nat (String.length p) / 4 <= Int.INT32_MAX) payloads ->
  exists w' st',
    deliver_binary_all hdl payloads w = Returns w' ∧
    heap w' !! s = Some st' ∧
    num_samples st' = num_samples st + samples_of payloads.
Proof.
  revert w st. induction payloads as [|p rest IH]; intros w st Hs Hst Hall.
  - exists w, st. cbn. split_and!; [done..|lia].
  - apply Forall_cons in Hall as [Hp Hall].
    destruct (deliver_binary_result w hdl s st p Hs Hst Hp)
      as (w1 & Hdel & Hheap & _ & Hconn).
    destruct (IH w1 _ ltac:(by rewrite Hconn)
                ltac:(rewrite Hheap; apply lookup_insert_eq) Hall)
      as (w' & st' & Hrest & Hst' & Hcount).
    exists w', st'. cbn. rewrite Hdel. cbn. split_and!; [done..|].
    rewrite Hcount, num_samples_AcceptWaveform. cbn. lia.
Qed.

(** *** One round over the queue *)



(** *** Tensors outlive the payloads *)

Lemma tensor_elems_insert_fresh (m : memory) (a : addr) (block : list ascii)
  (t : Tensor) :
  m !! a = None -> is_Some (tensor_elems m t) ->
  is_Some (tensor_elems (<[a := block]> m) t).
Proof.
  intros Hnone. unfold tensor_elems.
  destruct (m !! data_ptr t) as [bs|] eqn:Hl; [|by intros [? ?]].
  rewrite lookup_insert_ne; [by rewrite Hl|]. congruence.
Qed.

Lemma tensors_live_deliver hdl op payload w w' :
  tensors_live w -> deliver hdl op payload w = Returns w' -> tensors_live w'.
Proof.
  intros Hlive Hdel.
  destruct (deliver_shape _ _ _ _ _ Hdel)
    as [->|(s & st & t & block & fin & Hs & Hst & Hnone & Hnew & Hcase)]; [done|].
  cbv zeta in Hcase.
  assert (forall s0 st0 t0,
            <[s := mkStream (waveform st ++ [t]) fin (rec_state st)]> (heap w) !! s0
              = Some st0 ->
            t0 ∈ waveform st0 ->
            is_Some (tensor_elems (<[data_ptr t := block]> (mem w)) t0)) as Hgoal.
  { intros s0 st0 t0 Hl Hin.
    destruct (decide (s = s0)) as [<-|Hne].
    - rewrite lookup_insert_eq in Hl. injection Hl as <-. cbn in Hin.
      apply elem_of_app in Hin as [Hin| ->%list_elem_of_singleton]; [|done].
      apply tensor_elems_insert_fresh; [done|]. by apply (Hlive s st).
    - rewrite lookup_insert_ne in Hl by done.
      apply tensor_elems_insert_fresh; [done|]. by apply (Hlive s0 st0). }
  destruct Hcase as [[_ ->]|[_ ->]]; [exact Hgoal|].
  unfold Push. case_decide; exact Hgoal.
Qed.

Lemma tensors_live_Decode w w' :
  (forall st t, t ∈ waveform (DecodeStream st) -> t ∈ waveform st) ->
  pointers_live w -> tensors_live w -> Decode w = Returns w' -> tensors_live w'.
Proof.
  intros Hkeep [_ Hq] Hlive Hdec.
  destruct (streams_ w) as [|[hdl s] rest] eqn:Hstreams.
  { rewrite Decode_empty in Hdec by done. by injection Hdec as <-. }
  assert (is_Some (heap w !! s)) as [st Hst].
  { apply (Hq (hdl, s)). by left. }
  rewrite (Decode_nonempty w hdl s rest st Hstreams Hst) in Hdec.
  injection Hdec as <-.
  assert (forall s0 st0 t0,
            <[s := DecodeStream st]> (heap w) !! s0 = Some st0 ->
            t0 ∈ waveform st0 -> is_Some (tensor_elems (mem w) t0)) as Hgoal.
  { intros s0 st0 t0 Hl Hin.
    destruct (decide (s = s0)) as [<-|Hne].
    - rewrite lookup_insert_eq in Hl. injection Hl as <-.
      apply (Hlive s st); [done|]. by apply Hkeep.
    - rewrite lookup_insert_ne in Hl by done. by apply (Hlive s0 st0). }
  destruct (Contains w hdl && IsReady _); exact Hgoal.
Qed.

Lemma tensors_live_perform a w w' :
  (forall st t, t ∈ waveform (DecodeStream st) -> t ∈ waveform st) ->
  server_inv w -> tensors_live w -> perform a w = Returns w' -> tensors_live w'.
Proof.
  intros Hkeep Hinv Hlive. destruct a as [h|h|h op payload| |]; cbn.
  - intros [= <-]. unfold OnOpen, CreateStream. cbn.
    intros s0 st0 t0. cbn.
    assert (heap w !! fresh (dom (heap w)) = None) as Hfresh.
    { apply not_elem_of_dom, is_fresh. }
    intros [[<- <-]|[Hne Hl]]%lookup_insert_Some.
    + by intros ?%elem_of_nil.
    + by apply (Hlive s0 st0).
  - by intros [= <-].
  - by apply tensors_live_deliver.
  - destruct Hinv as ((_ & _ & _ & _ & [_ Hrc]) & _).
    unfold run_conn. destruct (io_conn_ w) as [|t rest]; [by intros [= <-]|].
    apply Forall_cons in Hrc as [(hdl & text & ->) _]. cbn.
    destruct (Send_fields hdl text (set_io_conn rest w)) as (tr & l & ->).
    by intros [= <-].
  - intros Hrun.
    destruct (run_work_shape _ _ Hinv Hrun) as [[_ ->]|(rest & Hw & Hdec)]; [done|].
    destruct Hinv as ((_ & _ & Hp & _) & _).
    by apply (tensors_live_Decode (set_io_work rest w) w').
Qed.

(** X12: when a decoding step adds no tensor to a stream, every tensor a
    stream holds keeps denoting elements of the memory, in every state of
    the running server: the payloads are freed, the accepted samples never
    dangle. *)
Theorem served_tensors_live w :
  (forall st t, t ∈ waveform (DecodeStream st) -> t ∈ waveform st) ->
  served w -> tensors_live w.
Proof.
  intros Hkeep (tr & acts & Hrun).
  assert (forall w0, server_inv w0 -> tensors_live w0 ->
            perform_all acts w0 = Returns w -> tensors_live w) as Hgen.
  { clear Hrun. induction acts as [|a acts IH]; intros w0 Hinv Hlive; cbn.
    - by intros [= <-].
    - destruct (perform a w0) as [w1| |] eqn:Ha; cbn; [|done..].
      apply IH.
      + by eapply server_inv_perform.
      + by eapply tensors_live_perform. }
  apply (Hgen _ (server_inv_initial tr)); [|done].
  intros s st t Hl. cbn in Hl. by rewrite lookup_empty in Hl.
Qed.



End ServerTheory.

(** *** Opening twice *)

Section OpenTheory.
Context {recognizer_ : OnlineRecognizer} {server_ : Endpoint}.

(** X14: [OnOpen] for a handle that is registered already keeps its stream,
    as [emplace] does: the registry and every existing stream object stay as
    they are; the stream just created is referred to by nobody. *)
Theorem OnOpen_registered (w : World) hdl s :
  connections_ w !! hdl = Some s -> is_Some (heap w !! s) ->
  connections_ (OnOpen hdl w) = connections_ w ∧
  heap (OnOpen hdl w) !! s = heap w !! s ∧
  streams_ (OnOpen hdl w) = streams_ w.
Proof.
  intros Hs [st Hst]. unfold OnOpen, CreateStream. cbn. rewrite Hs.
  split_and!; try done.
  rewrite lookup_insert_ne; [done|].
  intros Heq. pose proof (is_fresh (dom (heap w))) as Hf.
  rewrite Heq in Hf. apply Hf. apply elem_of_dom. by eexists.
Qed.

End OpenTheory.

(** *** HTTP and configuration *)

Section HttpStatus.
Context {http_server_ : HttpServer}.

(** X15: the status of an HTTP answer is 200 exactly when the file, with [/]
    read as [/index.html], is neither of the two shadowed ones and the file
    server finds it; unless shadowed, the body is what the file server
    gives. *)
Theorem OnHttp_status (resource : string) :
  let filename := if String.eqb resource "/" then "/index.html" else resource in
  ((OnHttp resource).1 = ok <->
   filename ≠ "/upload.html" ∧ filename ≠ "/offline_record.html" ∧
   (ProcessRequest filename).1 = true) ∧
  (filename ≠ "/upload.html" -> filename ≠ "/offline_record.html" ->
   (OnHttp resource).2 = (ProcessRequest filename).2).
Proof.
  intros filename. unfold OnHttp. fold filename.
  destruct (String.eqb_spec filename "/upload.html") as [E1|E1];
    destruct (String.eqb_spec filename "/offline_record.html") as [E2|E2]; cbn.
  - split; [split; [done|by intros (? & _)]|done].
  - split; [split; [done|by intros (? & _)]|done].
  - split; [split; [done|by intros (_ & ? & _)]|done].
  - destruct (ProcessRequest filename) as [[|] content]; cbn;
      (split; [split; [done|]|done]); by intros (_ & _ & ?).
Qed.

End HttpStatus.

(** X16: [Validate] lets the server start exactly when the decoder's
    configuration validates, the document root is not empty and
    [index.html] exists under it. *)
Theorem Validate_passes (decoder : validation) (FileExists : string -> bool)
  (config : OnlineWebsocketServerConfig) :
  Validate decoder FileExists config = Valid <->
  decoder = Valid ∧ doc_root config ≠ "" ∧
  FileExists (doc_root config +:+ "/index.html") = true.
Proof.
  unfold Validate. destruct decoder as [|m]; [|by split; [|intros (? & _)]].
  destruct (String.eqb_spec (doc_root config) "") as [E|E].
  - split; [done|]. by intros (_ & ? & _).
  - destruct (FileExists _); cbn; [done|]. split; [done|]. by intros (_ & _ & ?).
Qed.

(** *** The properties at work on the small instance *)

Lemma Demo_w7_served : served Demo.w7.
Proof. exists [], Demo.acts7. by vm_compute. Qed.

Lemma Demo_w8_served : served Demo.w8.
Proof. exists [], Demo.acts8. by vm_compute. Qed.

Lemma Demo_w5_inv : dispatcher_inv Demo.w5.
Proof.
  apply (inv_same_dispatcher Demo.w4); [done|].
  apply (deliver_inv 1%nat op_binary Demo.bytes8 Demo.w2); [apply Demo_w2_inv|].
  by vm_compute.
Qed.

Lemma one_decode_per_stream_witness :
  NoDup (decoding Demo.w3) ∧ (forall s, s ∈ decoding Demo.w3 -> s ∉ queued Demo.w3).
Proof.
  apply one_decode_per_stream.
  exists [], [EvOpen 1%nat; EvMessage 1%nat op_binary Demo.bytes8; EvDecodeFront].
  eapply steps_cons; [apply step_open|].
  eapply steps_cons; [apply step_message; by vm_compute|].
  eapply steps_cons; [apply (step_front Demo.w2)|].
  apply steps_nil.
Defined.

Lemma registry_tracks_open_witness :
  Contains Demo.w7 1%nat = false ∧ Contains Demo.w8 2%nat = true.
Proof.
  split.
  - rewrite (registry_tracks_open Demo.acts7 Demo.w0 Demo.w7 1%nat);
      by vm_compute.
  - rewrite (registry_tracks_open Demo.acts8 Demo.w0 Demo.w8 2%nat);
      by vm_compute.
Defined.



Lemma served_tasks_witness : tasks_routed Demo.w8 ∧ decode_pending Demo.w8.
Proof. apply served_tasks, Demo_w8_served. Defined.

Lemma Decode_after_close_witness :
  exists w',
    Decode Demo.w5 = Returns w' ∧ streams_ w' = [] ∧
    (Demo.s1 ∉ active_ w') ∧ (Demo.s1 ∉ queued w') ∧
    io_work_ w' = io_work_ Demo.w5.
Proof.
  apply (Decode_after_close Demo.w5 1%nat Demo.s1 [] Demo.st4);
    [apply Demo_w5_inv | done..].
Defined.

Lemma message_touches_one_stream_witness :
  heap (Demo.run (deliver 1%nat op_binary Demo.bytes8 Demo.w8) Demo.w8) !! Demo.s2
  = heap Demo.w8 !! Demo.s2.
Proof.
  apply (message_touches_one_stream 1%nat op_binary Demo.bytes8 Demo.w8);
    by vm_compute.
Defined.

Lemma control_frame_ignored_witness :
  deliver 1%nat op_ping "" Demo.w2 = Returns Demo.w2.
Proof. by apply (control_frame_ignored Demo.w2 1%nat Demo.s1). Defined.

Lemma short_binary_frame_witness :
  exists (t : Tensor) (w' : Demo.world),
    deliver 1%nat op_binary "abc" Demo.w1 = Returns w' ∧
    heap w' !! Demo.s1 = Some (mkStream [t] false 0%nat) ∧ numel t = 0.
Proof.
  destruct (short_binary_frame Demo.w1 1%nat Demo.s1 (mkStream [] false 0%nat) "abc")
    as (t & w' & Hdel & Hheap & Hn & _); [done | done | cbn; lia |].
  by exists t, w'.
Defined.

Lemma binary_frames_add_up_witness :
  exists w' st',
    deliver_binary_all 1%nat [Demo.bytes8; Demo.bytes5] Demo.w1 = Returns w' ∧
    heap w' !! Demo.s1 = Some st' ∧ num_samples st' = 3.
Proof.
  destruct (binary_frames_add_up [Demo.bytes8; Demo.bytes5] Demo.w1 1%nat Demo.s1
              (mkStream [] false 0%nat))
    as (w' & st' & Hrun & Hheap & Hcount); [done | done | |].
  - repeat constructor; by vm_compute.
  - by exists w', st'.
Defined.


Lemma served_tensors_live_witness : tensors_live Demo.w8.
Proof.
  apply served_tensors_live; [|apply Demo_w8_served].
  by intros st t.
Defined.


Lemma OnOpen_registered_witness :
  connections_ (OnOpen 1%nat Demo.w2) = connections_ Demo.w2 ∧
  heap (OnOpen 1%nat Demo.w2) !! Demo.s1 = heap Demo.w2 !! Demo.s1 ∧
  streams_ (OnOpen 1%nat Demo.w2) = streams_ Demo.w2.
Proof.
  apply (OnOpen_registered Demo.w2 1%nat Demo.s1);
    [by vm_compute | eexists; by vm_compute].
Defined.
